(** * Emergency alert services: Alert, AlertTypes, NotificationService, FileHandler

    A shallow embedding of the TypeScript services of the repository
    (src/services/Alert.ts, AlertTypes.ts, NotificationService.ts and
    FileHandler.ts) together with the properties of the specification that
    concern them.

    JavaScript objects are references: the alert handed to
    [NotificationService.notifyAll] and the four channel alerts it builds
    live in one heap, and every method is a computation over that heap
    which either completes normally or throws. *)

From stdpp Require Import gmap strings list fin_maps pretty.

Local Open Scope string_scope.

(** ** Completions and the state-and-exception monad *)

(** What a JavaScript [throw] can carry in the modelled code. *)
Inductive Exn : Type :=
  | TypeError (msg : string)
  | PostgrestError (msg : string)
  | NetworkError (msg : string)
  | QuotaExceededError
  | SyntaxError.

(** The outcome of evaluating a statement or an awaited promise. *)
Inductive Completion (A : Type) : Type :=
  | Normal (a : A)
  | Throw (e : Exn).
Arguments Normal {A} a.
Arguments Throw {A} e.

Module Eff.

(** A computation over a mutable state [S]: assignments made before a
    throw stay made, as in JavaScript. *)
Definition M (S A : Type) : Type := S → Completion A * S.

Definition ret {S A} (a : A) : M S A := λ s, (Normal a, s).

Definition bind {S A B} (m : M S A) (k : A → M S B) : M S B :=
  λ s, match m s with
       | (Normal a, s') => k a s'
       | (Throw e, s') => (Throw e, s')
       end.

Definition throw {S A} (e : Exn) : M S A := λ s, (Throw e, s).

(** [try { body } catch (error) { handler }] *)
Definition try_catch {S A} (body : M S A) (handler : Exn → M S A) : M S A :=
  λ s, match body s with
       | (Normal a, s') => (Normal a, s')
       | (Throw e, s') => handler e s'
       end.

Definition get {S} : M S S := λ s, (Normal s, s).
Definition gets {S A} (f : S → A) : M S A := λ s, (Normal (f s), s).
Definition modify {S} (f : S → S) : M S unit := λ s, (Normal tt, f s).

(** Awaiting a promise that has already settled. *)
Definition await {S A} (c : Completion A) : M S A := λ s, (c, s).

End Eff.

Global Instance eff_ret {S} : MRet (Eff.M S) := λ A, @Eff.ret S A.
Global Instance eff_bind {S} : MBind (Eff.M S) := λ A B k m, Eff.bind m k.

Ltac eff_unfold :=
  unfold mbind, eff_bind, mret, eff_ret, Eff.bind, Eff.ret, Eff.try_catch,
         Eff.throw, Eff.await, Eff.modify, Eff.gets, Eff.get in *.

(** ** Alert.ts: the base class *)

Inductive AlertType : Type := medical | fire | police | general.
Inductive AlertStatus : Type := pending | acknowledged | resolved.

Global Instance AlertType_eq_dec : EqDecision AlertType.
Proof. solve_decision. Defined.
Global Instance AlertStatus_eq_dec : EqDecision AlertStatus.
Proof. solve_decision. Defined.

(** A JavaScript number, kept as the 64 bits of its IEEE-754 encoding: the
    services only carry coordinates around. *)
Record Number : Type := mkNumber { bits : Z }.

Record LatLng : Type := mkLatLng { lat : Number; lng : Number }.

(** The fields the four subclasses add to [Alert]. *)
Inductive Subclass : Type :=
  | SMSAlert (phoneNumbers : list string)
  | EmailAlert (emailAddresses : list string)
  | AuthorityAlert (authorityType : string)
  | PushNotificationAlert (deviceTokens : list string).

(** An instance of a subclass of the abstract class [Alert]: the private
    fields of the base class and the fields of the subclass. *)
Record Alert : Type := mkAlert {
  _id : string;
  _userId : string;
  _type : AlertType;
  _message : string;
  _status : AlertStatus;
  _timestamp : Z;
  _location : option LatLng;
  _locationAddress : string;
  subclass : Subclass
}.

(** Lines written with [console.log]. *)
Inductive ConsoleLine : Type :=
  | LogSendingSMS (n : nat)
  | LogSendingEmail (n : nat)
  | LogNotifying (authorityType : string)
  | LogSendingPush (n : nat).

Definition loc : Type := nat.

(** The part of the JavaScript world the alert classes touch: the objects,
    the console, and how many identifiers [crypto.randomUUID] has handed
    out. *)
Record World : Type := mkWorld {
  heap : gmap loc Alert;
  console : list ConsoleLine;
  uuids_drawn : nat
}.

Definition AlertM : Type → Type := Eff.M World.

Definition console_log (line : ConsoleLine) : AlertM unit :=
  Eff.modify (λ w, mkWorld (heap w) (console w ++ [line])%list (uuids_drawn w)).

(** Reading a field through a reference. A reference that points nowhere
    cannot be built in TypeScript; the model answers it like a [null]
    receiver. *)
Definition deref (this : loc) : AlertM Alert :=
  λ w, match heap w !! this with
       | Some a => (Normal a, w)
       | None => (Throw (TypeError "Cannot read properties of undefined"), w)
       end.

Definition store (this : loc) (a : Alert) : AlertM unit :=
  Eff.modify (λ w, mkWorld (<[this := a]> (heap w)) (console w) (uuids_drawn w)).

Definition with_status (value : AlertStatus) (a : Alert) : Alert :=
  mkAlert (_id a) (_userId a) (_type a) (_message a) value (_timestamp a)
          (_location a) (_locationAddress a) (subclass a).

Definition with_message (value : string) (a : Alert) : Alert :=
  mkAlert (_id a) (_userId a) (_type a) value (_status a) (_timestamp a)
          (_location a) (_locationAddress a) (subclass a).

(** [set status(value) { this._status = value; }] *)
Definition set_status (this : loc) (value : AlertStatus) : AlertM unit :=
  a ← deref this; store this (with_status value a).

(** [set message(value) { this._message = value; }] *)
Definition set_message (this : loc) (value : string) : AlertM unit :=
  a ← deref this; store this (with_message value a).

(** [get status()] *)
Definition get_status (this : loc) : AlertM AlertStatus :=
  a ← deref this; mret (_status a).

Definition AlertType_to_string (t : AlertType) : string :=
  match t with
  | medical => "medical" | fire => "fire" | police => "police" | general => "general"
  end.

Definition AlertStatus_to_string (s : AlertStatus) : string :=
  match s with
  | pending => "pending" | acknowledged => "acknowledged" | resolved => "resolved"
  end.

(** [getAlertSummary()] *)
Definition getAlertSummary (a : Alert) : string :=
  "Alert [" +:+ AlertType_to_string (_type a) +:+ "] - " +:+ _message a
    +:+ " at " +:+ _locationAddress a.

(** The row [toDatabase()] builds. *)
Record AlertRow : Type := mkAlertRow {
  row_user_id : string;
  row_type : AlertType;
  row_message : string;
  row_status : AlertStatus;
  row_latitude : option Number;
  row_longitude : option Number;
  row_location_address : string
}.

Definition toDatabase (a : Alert) : AlertRow :=
  mkAlertRow (_userId a) (_type a) (_message a) (_status a)
             (lat <$> _location a) (lng <$> _location a) (_locationAddress a).

(** The environment of the page: the source of UUIDs and the clock. *)
Record Runtime : Type := mkRuntime {
  randomUUID : nat → string;
  now : nat → Z
}.

(** [constructor(userId, type, message, location, locationAddress)] of the
    base class followed by the subclass constructor's own assignments:
    [new C(...)] allocates the object at an unused reference. *)
Definition new_alert (rt : Runtime) (userId : string) (type : AlertType)
    (message : string) (location : option LatLng) (locationAddress : string)
    (sub : Subclass) : AlertM loc :=
  λ w, let l := fresh (dom (heap w)) in
       let a := mkAlert (randomUUID rt (uuids_drawn w)) userId type message
                        pending (now rt (uuids_drawn w)) location locationAddress sub in
       (Normal l, mkWorld (<[l := a]> (heap w)) (console w) (S (uuids_drawn w))).

(** ** AlertTypes.ts: the four channels *)

(** What [sendAlert] resolves to. *)
Record SendResult : Type := mkSendResult { success : bool; message : string }.

(** The reply of [supabase.from("alerts").insert([row]).select().single()]. *)
Record InsertReply : Type := mkInsertReply {
  data : option string;      (* the inserted row, of which only [id] is read *)
  error : option string
}.

(** The hosted backend, outside the repository: each call settles to a
    reply or rejects. *)
Record Supabase : Type := mkSupabase {
  alerts_insert : AlertRow → Completion InsertReply;
  functions_invoke : string → string → Completion unit
}.

(** [determineAuthority(type)]: a lookup in an object literal. *)
Definition determineAuthority (type : AlertType) : string :=
  match type with
  | medical => "911 Medical"
  | fire => "Fire Department"
  | police => "Police Department"
  | general => "Emergency Services"
  end.

Section Channels.

Context (rt : Runtime) (supabase : Supabase).

Definition new_SMSAlert userId type message location locationAddress
    (phoneNumbers : list string) : AlertM loc :=
  new_alert rt userId type message location locationAddress (SMSAlert phoneNumbers).

Definition new_EmailAlert userId type message location locationAddress
    (emailAddresses : list string) : AlertM loc :=
  new_alert rt userId type message location locationAddress (EmailAlert emailAddresses).

Definition new_AuthorityAlert userId type message location locationAddress : AlertM loc :=
  new_alert rt userId type message location locationAddress
            (AuthorityAlert (determineAuthority type)).

Definition new_PushNotificationAlert userId type message location locationAddress
    (deviceTokens : list string) : AlertM loc :=
  new_alert rt userId type message location locationAddress
            (PushNotificationAlert deviceTokens).

Definition SMSAlert_sendAlert (this : loc) (phoneNumbers : list string)
    : AlertM SendResult :=
  Eff.try_catch
    (console_log (LogSendingSMS (length phoneNumbers));;
     set_status this acknowledged;;
     mret (mkSendResult true
             ("SMS alerts sent to " +:+ pretty (length phoneNumbers) +:+ " contacts")))
    (λ _, set_status this pending;;
          mret (mkSendResult false "Failed to send SMS alerts")).

Definition EmailAlert_sendAlert (this : loc) (emailAddresses : list string)
    : AlertM SendResult :=
  Eff.try_catch
    (console_log (LogSendingEmail (length emailAddresses));;
     set_status this acknowledged;;
     mret (mkSendResult true
             ("Email alerts sent to " +:+ pretty (length emailAddresses) +:+ " contacts")))
    (λ _, set_status this pending;;
          mret (mkSendResult false "Failed to send email alerts")).

Definition AuthorityAlert_sendAlert (this : loc) (authorityType : string)
    : AlertM SendResult :=
  Eff.try_catch
    (console_log (LogNotifying authorityType);;
     a ← deref this;
     reply ← Eff.await (alerts_insert supabase (toDatabase a));
     match error reply with
     | Some alertError => Eff.throw (PostgrestError alertError)
     | None =>
         alertId ← match data reply with
                   | Some id => mret id
                   | None => Eff.throw (TypeError "Cannot read properties of null")
                   end;
         Eff.await (functions_invoke supabase "notify-emergency" alertId);;
         set_status this acknowledged;;
         mret (mkSendResult true (authorityType +:+ " has been notified"))
     end)
    (λ _, set_status this pending;;
          mret (mkSendResult false "Failed to notify authorities")).

Definition PushNotificationAlert_sendAlert (this : loc) (deviceTokens : list string)
    : AlertM SendResult :=
  Eff.try_catch
    (console_log (LogSendingPush (length deviceTokens));;
     set_status this acknowledged;;
     mret (mkSendResult true
             ("Push notifications sent to " +:+ pretty (length deviceTokens) +:+ " devices")))
    (λ _, set_status this pending;;
          mret (mkSendResult false "Failed to send push notifications")).

(** [alert.sendAlert()]: the override of the receiver's class runs. *)
Definition sendAlert (this : loc) : AlertM SendResult :=
  a ← deref this;
  match subclass a with
  | SMSAlert phoneNumbers => SMSAlert_sendAlert this phoneNumbers
  | EmailAlert emailAddresses => EmailAlert_sendAlert this emailAddresses
  | AuthorityAlert authorityType => AuthorityAlert_sendAlert this authorityType
  | PushNotificationAlert deviceTokens => PushNotificationAlert_sendAlert this deviceTokens
  end.

End Channels.

(** ** NotificationService.ts *)

Record Contact : Type := mkContact {
  contact_id : string;
  name : string;
  phone : string;
  email : option string;
  relationship : string
}.

(** An element of [results]: [{ type: "SMS", ...result }]. *)
Record ResultEntry : Type := mkResultEntry {
  entry_type : string;
  entry_success : bool;
  entry_message : string
}.

Definition tagged (type : string) (result : SendResult) : ResultEntry :=
  mkResultEntry type (success result) (message result).

Record NotifyResult : Type := mkNotifyResult {
  all_success : bool;            (* the field [success] *)
  results : list ResultEntry
}.

(** [xs.push(x)] *)
Definition push {A} (xs : list A) (x : A) : list A := (xs ++ [x])%list.

(** [Boolean(s)] for a string: every string but the empty one is truthy. *)
Definition Boolean_string (s : string) : bool :=
  match s with EmptyString => false | String _ _ => true end.

(** [Boolean(v)] for [string | undefined]. *)
Definition Boolean_optional (v : option string) : bool :=
  match v with Some s => Boolean_string s | None => false end.

(** [... as string[]]: a cast, which keeps the strings there are. *)
Definition as_strings (vs : list (option string)) : list string := omap id vs.

Section NotificationService.

Context (rt : Runtime) (supabase : Supabase).

Definition notifyAll (alert : loc) (contacts : list Contact) : AlertM NotifyResult :=
  let results : list ResultEntry := [] in
  let phoneNumbers := List.filter Boolean_string (map phone contacts) in
  let emailAddresses :=
    as_strings (List.filter Boolean_optional (map email contacts)) in
  (* SMS alerts *)
  results ←
    (if bool_decide (0 < length phoneNumbers) then
       a ← deref alert;
       smsAlert ← new_SMSAlert rt (_userId a) (_type a) (_message a)
                     (_location a) (_locationAddress a) phoneNumbers;
       result ← sendAlert supabase smsAlert;
       mret (push results (tagged "SMS" result))
     else mret results);
  (* Email alerts *)
  results ←
    (if bool_decide (0 < length emailAddresses) then
       a ← deref alert;
       emailAlert ← new_EmailAlert rt (_userId a) (_type a) (_message a)
                       (_location a) (_locationAddress a) emailAddresses;
       result ← sendAlert supabase emailAlert;
       mret (push results (tagged "Email" result))
     else mret results);
  (* Authority alert *)
  a ← deref alert;
  authorityAlert ← new_AuthorityAlert rt (_userId a) (_type a) (_message a)
                     (_location a) (_locationAddress a);
  authorityResult ← sendAlert supabase authorityAlert;
  let results := push results (tagged "Authority" authorityResult) in
  (* Push notifications (simulated) *)
  a ← deref alert;
  pushAlert ← new_PushNotificationAlert rt (_userId a) (_type a) (_message a)
                (_location a) (_locationAddress a)
                ["device-token-1"; "device-token-2"];
  pushResult ← sendAlert supabase pushAlert;
  let results := push results (tagged "Push" pushResult) in
  let allSuccess := forallb entry_success results in
  mret (mkNotifyResult allSuccess results).

End NotificationService.

(** ** FileHandler.ts *)

Record EmergencyLog : Type := mkEmergencyLog {
  log_id : string;
  log_userId : string;
  log_type : string;
  log_message : string;
  log_location : option LatLng;
  log_locationAddress : string;
  log_timestamp : Z;
  log_status : string;
  notificationResults : option (list ResultEntry)
}.

(** The text kept under a key of [localStorage]: the serialisation of an
    array of logs, or something [JSON.parse] or the [map] after it chokes
    on. Serialising and parsing a log gives the log back. *)
Inductive StoredText : Type :=
  | Json (logs : list EmergencyLog)
  | Malformed (text : string).

(** [localStorage]: the item under [STORAGE_KEY] and the browser's decision,
    for each text, whether it still fits the quota. Console output of the
    file handler is left out. *)
Record LocalStorage : Type := mkLocalStorage {
  emergency_logs : option StoredText;
  fits : list EmergencyLog → bool
}.

Definition StorageM : Type → Type := Eff.M LocalStorage.

Definition MAX_LOGS : nat := 100.

Definition localStorage_getItem : StorageM (option StoredText) :=
  Eff.gets emergency_logs.

Definition localStorage_setItem (logs : list EmergencyLog) : StorageM unit :=
  λ ls, if fits ls logs
        then (Normal tt, mkLocalStorage (Some (Json logs)) (fits ls))
        else (Throw QuotaExceededError, ls).

Definition localStorage_removeItem : StorageM unit :=
  Eff.modify (λ ls, mkLocalStorage None (fits ls)).

Definition JSON_parse (text : StoredText) : Completion (list EmergencyLog) :=
  match text with
  | Json logs => Normal logs
  | Malformed _ => Throw SyntaxError
  end.

(** [{ ...log, timestamp: new Date(log.timestamp) }] *)
Definition revive (log : EmergencyLog) : EmergencyLog :=
  mkEmergencyLog (log_id log) (log_userId log) (log_type log) (log_message log)
                 (log_location log) (log_locationAddress log) (log_timestamp log)
                 (log_status log) (notificationResults log).

Definition readLogs : StorageM (list EmergencyLog) :=
  Eff.try_catch
    (data ← localStorage_getItem;
     match data with
     | None => mret []
     | Some text =>
         logs ← Eff.await (JSON_parse text);
         mret (map revive logs)
     end)
    (λ _, mret []).

Definition saveLog (log : EmergencyLog) : StorageM unit :=
  Eff.try_catch
    (logs ← readLogs;
     let logs := log :: logs in            (* unshift *)
     let trimmedLogs := take MAX_LOGS logs in   (* slice(0, MAX_LOGS) *)
     localStorage_setItem trimmedLogs)
    (λ _, mret tt).

Definition readUserLogs (userId : string) : StorageM (list EmergencyLog) :=
  allLogs ← readLogs;
  mret (filter (λ log, log_userId log = userId) allLogs).

Definition deleteLog (logId : string) : StorageM unit :=
  Eff.try_catch
    (logs ← readLogs;
     let filteredLogs := filter (λ log, log_id log ≠ logId) logs in
     localStorage_setItem filteredLogs)
    (λ _, mret tt).

Definition clearAllLogs : StorageM unit :=
  Eff.try_catch localStorage_removeItem (λ _, mret tt).

(** What a property of the counter objects holds. The objects are
    created by [{}], so a key that names a member of [Object.prototype]
    reads that member until the object has a property of its own under the
    key, and adding 1 to a member gives a string: the text of the member
    followed by the character 1. [MemberText member ones] is the text of
    [Object.prototype[member]] followed by [ones] times the character 1. *)
Inductive Counter : Type :=
  | Count (n : nat)
  | MemberText (member : string) (ones : nat).

(** The property names of [Object.prototype] in a browser. *)
Definition Object_prototype_members : list string :=
  ["constructor"; "hasOwnProperty"; "isPrototypeOf"; "propertyIsEnumerable";
   "toLocaleString"; "toString"; "valueOf";
   "__defineGetter__"; "__defineSetter__"; "__lookupGetter__"; "__lookupSetter__";
   "__proto__"].

Record Statistics : Type := mkStatistics {
  total : nat;
  byType : gmap string Counter;
  byStatus : gmap string Counter
}.

(** [counts[key] = (counts[key] || 0) + 1] on an object created by [{}].
    Under ["__proto__"] the read gives the prototype, and the assignment of
    the resulting string goes to the setter of [__proto__], which ignores
    what is not an object. Under any other key the object's own property
    is read if there is one, else the inherited member if the key names
    one, else [undefined]; numbers and strings held are never falsy, and
    the assignment makes or updates the object's own property. *)
Definition bump (key : string) (counts : gmap string Counter) : gmap string Counter :=
  if decide (key = "__proto__") then counts
  else match counts !! key with
       | Some (Count n) => <[key := Count (n + 1)]> counts
       | Some (MemberText member ones) => <[key := MemberText member (ones + 1)]> counts
       | None =>
           if decide (key ∈ Object_prototype_members)
           then <[key := MemberText key 1]> counts
           else <[key := Count 1]> counts
       end.

(** The body of the [forEach] of [getStatistics]. *)
Definition tally (acc : gmap string Counter * gmap string Counter) (log : EmergencyLog)
    : gmap string Counter * gmap string Counter :=
  (bump (log_type log) acc.1, bump (log_status log) acc.2).

(** [getStatistics(userId?)]: an absent argument is [None]; the test
    [userId ? ... : ...] is on truthiness. *)
Definition getStatistics (userId : option string) : StorageM Statistics :=
  logs ← (if Boolean_optional userId
          then readUserLogs (default "" userId)
          else readLogs);
  let counts := foldl tally (∅, ∅) logs in
  mret (mkStatistics (length logs) counts.1 counts.2).

(** The sum of the numbers held in a map of counts. *)
Definition sum_counts (counts : gmap string nat) : nat :=
  map_fold (λ _ n acc, n + acc) 0 counts.

(** Running a list of calls one after the other. *)
Fixpoint forEach {S A} (f : A → Eff.M S unit) (xs : list A) : Eff.M S unit :=
  match xs with
  | [] => mret tt
  | x :: xs' => f x;; forEach f xs'
  end.

(** The mutating calls a client of the file handler can make. *)
Inductive StoreCall : Type :=
  | CallSaveLog (log : EmergencyLog)
  | CallDeleteLog (logId : string)
  | CallClearAllLogs.

Definition call (c : StoreCall) : StorageM unit :=
  match c with
  | CallSaveLog log => saveLog log
  | CallDeleteLog logId => deleteLog logId
  | CallClearAllLogs => clearAllLogs
  end.

(** What a computation leaves behind and what it answers. *)
Definition state_after {S A} (m : Eff.M S A) (s : S) : S := (m s).2.
Definition answer {S A} (m : Eff.M S A) (s : S) : Completion A := (m s).1.

(** The logs a storage holds, as [readLogs] sees them. *)
Definition stored (ls : LocalStorage) : list EmergencyLog :=
  match answer readLogs ls with
  | Normal logs => logs
  | Throw _ => []
  end.

(** ** Closed forms used in the proofs *)

(** The logs under the key, when the text there parses. *)
Definition contents (ls : LocalStorage) : list EmergencyLog :=
  match emergency_logs ls with
  | Some (Json logs) => logs
  | _ => []
  end.

(** The logs [getStatistics] counts: those of the user when the argument
    is truthy, all stored logs otherwise. *)
Definition selected (userId : option string) (ls : LocalStorage) : list EmergencyLog :=
  if Boolean_optional userId
  then filter (λ log, log_userId log = default "" userId) (stored ls)
  else stored ls.

(** Counting one more occurrence of [key] in a map of numbers: what [bump]
    does on keys that name no member of [Object.prototype]. *)
Definition count_up (key : string) (counts : gmap string nat) : gmap string nat :=
  <[key := default 0 (counts !! key) + 1]> counts.

(** The line a channel writes to the console when it starts sending. *)
Definition announcement (sub : Subclass) : ConsoleLine :=
  match sub with
  | SMSAlert phoneNumbers => LogSendingSMS (length phoneNumbers)
  | EmailAlert emailAddresses => LogSendingEmail (length emailAddresses)
  | AuthorityAlert authorityType => LogNotifying authorityType
  | PushNotificationAlert deviceTokens => LogSendingPush (length deviceTokens)
  end.


(** Whether the two backend calls of the authority channel both go
    through for the row of [a]. *)
Definition backend_accepts (supabase : Supabase) (a : Alert) : bool :=
  match alerts_insert supabase (toDatabase a) with
  | Normal (mkInsertReply (Some alertId) None) =>
      match functions_invoke supabase "notify-emergency" alertId with
      | Normal _ => true
      | Throw _ => false
      end
  | _ => false
  end.

(** What [sendAlert] answers on the object [a]. *)
Definition outcome (supabase : Supabase) (a : Alert) : SendResult :=
  match subclass a with
  | SMSAlert phoneNumbers =>
      mkSendResult true
        ("SMS alerts sent to " +:+ pretty (length phoneNumbers) +:+ " contacts")
  | EmailAlert emailAddresses =>
      mkSendResult true
        ("Email alerts sent to " +:+ pretty (length emailAddresses) +:+ " contacts")
  | AuthorityAlert authorityType =>
      if backend_accepts supabase a
      then mkSendResult true (authorityType +:+ " has been notified")
      else mkSendResult false "Failed to notify authorities"
  | PushNotificationAlert deviceTokens =>
      mkSendResult true
        ("Push notifications sent to " +:+ pretty (length deviceTokens) +:+ " devices")
  end.

Definition status_for (r : SendResult) : AlertStatus :=
  if success r then acknowledged else pending.

(** The object [new C(alert.userId, ...)] builds from the fields of [a]. *)
Definition built_from (rt : Runtime) (a : Alert) (sub : Subclass) (w : World) : Alert :=
  mkAlert (randomUUID rt (uuids_drawn w)) (_userId a) (_type a) (_message a)
          pending (now rt (uuids_drawn w)) (_location a) (_locationAddress a) sub.

(** One channel of [notifyAll]: build the channel alert from [a], send it,
    push the tagged result. *)
Definition channel (rt : Runtime) (supabase : Supabase) (a : Alert)
    (sub : Subclass) (tag : string) (acc : list ResultEntry * World)
    : list ResultEntry * World :=
  let obj := built_from rt a sub acc.2 in
  let r := outcome supabase obj in
  (push acc.1 (tagged tag r),
   mkWorld (<[fresh (dom (heap acc.2)) := with_status (status_for r) obj]> (heap acc.2))
           (console acc.2 ++ [announcement sub])%list
           (S (uuids_drawn acc.2))).

Definition phones_of (contacts : list Contact) : list string :=
  List.filter Boolean_string (map phone contacts).

Definition emails_of (contacts : list Contact) : list string :=
  as_strings (List.filter Boolean_optional (map email contacts)).

Definition device_tokens : list string := ["device-token-1"; "device-token-2"].

Definition channels (rt : Runtime) (supabase : Supabase) (a : Alert)
    (contacts : list Contact) (w : World) : list ResultEntry * World :=
  let s0 := ([], w) in
  let s1 := if bool_decide (0 < length (phones_of contacts))
            then channel rt supabase a (SMSAlert (phones_of contacts)) "SMS" s0
            else s0 in
  let s2 := if bool_decide (0 < length (emails_of contacts))
            then channel rt supabase a (EmailAlert (emails_of contacts)) "Email" s1
            else s1 in
  let s3 := channel rt supabase a (AuthorityAlert (determineAuthority (_type a)))
                    "Authority" s2 in
  channel rt supabase a (PushNotificationAlert device_tokens) "Push" s3.

(** What a dispatch in progress has done to the world [w] it started
    from, on behalf of the alert [a]: objects that were there are
    untouched, one object and one identifier were used per result, and the
    new objects carry the fields of [a]. *)
Definition dispatched (a : Alert) (w : World) (acc : list ResultEntry * World) : Prop :=
  (∀ l, is_Some (heap w !! l) → heap acc.2 !! l = heap w !! l)
  ∧ size (heap acc.2) = size (heap w) + length acc.1
  ∧ uuids_drawn acc.2 = uuids_drawn w + length acc.1
  ∧ ∀ l obj, heap w !! l = None → heap acc.2 !! l = Some obj →
             _userId obj = _userId a ∧ _type obj = _type a
             ∧ _message obj = _message a ∧ _location obj = _location a
             ∧ _locationAddress obj = _locationAddress a.

(** ** Concrete inputs *)

Module Sample.

Definition runtime : Runtime :=
  mkRuntime (λ n, "uuid-" +:+ pretty n) (λ n, Z.of_nat n).

(** A backend on which every call goes through. *)
Definition backend_up : Supabase :=
  mkSupabase (λ _, Normal (mkInsertReply (Some "row-1") None)) (λ _ _, Normal tt).

(** A backend that rejects every call. *)
Definition backend_down : Supabase :=
  mkSupabase (λ _, Throw (NetworkError "fetch failed"))
             (λ _ _, Throw (NetworkError "fetch failed")).

Definition the_alert (status : AlertStatus) : Alert :=
  mkAlert "uuid-a" "user-1" medical "Emergency medical alert triggered" status 0
          None "Main Street 1" (AuthorityAlert "911 Medical").

(** A world holding one alert, at reference 0. *)
Definition world (status : AlertStatus) : World :=
  mkWorld {[ 0 := the_alert status ]} [] 1.

Definition contact_with_phone : Contact :=
  mkContact "c1" "Ada" "+15550100" (Some "") "friend".

Definition entry (id userId status : string) : EmergencyLog :=
  mkEmergencyLog id userId "medical" "help" None "Main Street 1" 0 status None.

Definition empty_storage : LocalStorage := mkLocalStorage None (λ _, true).

Definition full_storage (logs : list EmergencyLog) : LocalStorage :=
  mkLocalStorage (Some (Json logs)) (λ _, false).

Definition storage_with (logs : list EmergencyLog) : LocalStorage :=
  mkLocalStorage (Some (Json logs)) (λ _, true).

(** Two logs of one user, both with the status [status]. *)
Definition pair_with_status (status : string) : list EmergencyLog :=
  [entry "1" "user-1" status; entry "2" "user-1" status].

(** Entries with the identifiers "1", "2", ..., "n". *)
Definition entries (n : nat) : list EmergencyLog :=
  map (λ i, entry (pretty i) "user-1" "pending") (seq 1 n).

End Sample.

(** ** NotificationService.getEmergencyContacts and the emergency page *)

(** The reply of a [select] on the contacts table. *)
Record ContactsReply : Type := mkContactsReply {
  contacts_data : option (list Contact);
  contacts_error : option string
}.

(** The row the page inserts into the events table. *)
Record EventRow : Type := mkEventRow {
  event_alert_id : string;
  event_type : string;
  event_description : string;
  event_location : option LatLng;
  event_message : string;
  event_contactsNotified : nat
}.

(** The tables of the backend the page reads and writes besides the
    alerts table: each call settles to a reply or rejects. The rows come
    back ordered by priority; the ordering is the database's. *)
Record Tables : Type := mkTables {
  contacts_select : string → Completion ContactsReply;
  events_insert : EventRow → Completion unit
}.

(** [getEmergencyContacts(userId)]: [if (error) throw error; return data || []]. *)
Definition getEmergencyContacts {S} (tables : Tables) (userId : string)
    : Eff.M S (list Contact) :=
  reply ← Eff.await (contacts_select tables userId);
  match contacts_error reply with
  | Some error => Eff.throw (PostgrestError error)
  | None => mret (default [] (contacts_data reply))
  end.

(** [try { body } finally { finalizer }] *)
Definition try_finally {S A} (body : Eff.M S A) (finalizer : Eff.M S unit) : Eff.M S A :=
  λ s, match body s with
       | (r, s') =>
           match finalizer s' with
           | (Normal _, s'') => (r, s'')
           | (Throw e, s'') => (Throw e, s'')
           end
       end.

(** What the page does to the screen: toasts, state setters, the alarm
    sound and the delayed navigation. *)
Inductive UiEvent : Type :=
  | ToastValidationError (description : string)
  | ToastAlertSent (contacts : nat)
  | ToastError (error : Exn)
  | SetLoading (value : bool)
  | StopPanicSound
  | SetIsEmergencyActive (value : bool)
  | SetCountdown (value : option nat)
  | NavigateAfter (path : string) (milliseconds : nat).

(** The state of the component when [triggerEmergency] runs. *)
Record Form : Type := mkForm {
  form_user : option string;          (* [user?.id] *)
  form_alertType : AlertType;
  form_message : string;
  form_location : option LatLng;
  form_locationAddress : string
}.

(** The object handed to [alertSchema.safeParse]. *)
Record AlertInput : Type := mkAlertInput {
  input_type : AlertType;
  input_message : option string;
  input_latitude : Number;
  input_longitude : Number;
  input_location_address : string
}.

(** Where [triggerEmergency] runs: the alert objects, the local storage
    and the screen. *)
Record Page : Type := mkPage {
  page_world : World;
  page_storage : LocalStorage;
  page_ui : list UiEvent
}.

Definition PageM : Type → Type := Eff.M Page.

Definition in_world {A} (m : AlertM A) : PageM A :=
  λ p, let r := m (page_world p) in
       (r.1, mkPage r.2 (page_storage p) (page_ui p)).

Definition in_storage {A} (m : StorageM A) : PageM A :=
  λ p, let r := m (page_storage p) in
       (r.1, mkPage (page_world p) r.2 (page_ui p)).

Definition ui (e : UiEvent) : PageM unit :=
  Eff.modify (λ p, mkPage (page_world p) (page_storage p) (page_ui p ++ [e])%list).

(** [message || `Emergency ${alertType} alert triggered`] *)
Definition message_or_default (message : string) (alertType : AlertType) : string :=
  if Boolean_string message then message
  else "Emergency " +:+ AlertType_to_string alertType +:+ " alert triggered".

Section EmergencyPage.

(** [safeParse] is the validation of the zod library against
    [alertSchema]: it answers the message of the first issue, or nothing
    when the input passes. *)
Context (rt : Runtime) (supabase : Supabase) (tables : Tables)
        (safeParse : AlertInput → option string).

(** The [try] block of [triggerEmergency]. *)
Definition send_and_log (userId : string) (form : Form) (location : LatLng)
    : PageM unit :=
  alert ← in_world (new_AuthorityAlert rt userId (form_alertType form)
                      (message_or_default (form_message form) (form_alertType form))
                      (Some location) (form_locationAddress form));
  contacts ← getEmergencyContacts tables userId;
  result ← in_world (notifyAll rt supabase alert contacts);
  a ← in_world (deref alert);
  in_storage (saveLog (mkEmergencyLog
                         (_id a) userId (AlertType_to_string (form_alertType form))
                         (_message a) (Some location) (form_locationAddress form)
                         (_timestamp a) (AlertStatus_to_string (_status a))
                         (Some (results result))));;
  a ← in_world (deref alert);
  Eff.await (events_insert tables
               (mkEventRow (_id a) "alert_created"
                  ("Emergency alert triggered: "
                   +:+ AlertType_to_string (form_alertType form))
                  (Some location) (_message a) (length contacts)));;
  ui (ToastAlertSent (length contacts));;
  ui (NavigateAfter "/alerts" 2000).

Definition triggerEmergency (form : Form) : PageM unit :=
  match form_user form, form_location form with
  | Some userId, Some location =>
      match safeParse (mkAlertInput (form_alertType form)
                         (if Boolean_string (form_message form)
                          then Some (form_message form) else None)
                         (lat location) (lng location)
                         (form_locationAddress form)) with
      | Some issue => ui (ToastValidationError issue)
      | None =>
          ui (SetLoading true);;
          ui StopPanicSound;;
          try_finally
            (Eff.try_catch (send_and_log userId form location)
                           (λ error, ui (ToastError error)))
            (ui (SetLoading false);;
             ui (SetIsEmergencyActive false);;
             ui (SetCountdown None))
      end
  | _, _ => mret tt
  end.

End EmergencyPage.

(** The alert [triggerEmergency] builds in the world [w], the world once
    it is built, and the log saved after the channels ran. *)
Definition page_alert (rt : Runtime) (userId : string) (form : Form)
    (location : LatLng) (w : World) : Alert :=
  mkAlert (randomUUID rt (uuids_drawn w)) userId (form_alertType form)
          (message_or_default (form_message form) (form_alertType form))
          pending (now rt (uuids_drawn w)) (Some location) (form_locationAddress form)
          (AuthorityAlert (determineAuthority (form_alertType form))).

Definition page_world_built (rt : Runtime) (userId : string) (form : Form)
    (location : LatLng) (w : World) : World :=
  mkWorld (<[fresh (dom (heap w)) := page_alert rt userId form location w]> (heap w))
          (console w) (S (uuids_drawn w)).

Definition page_log (rt : Runtime) (userId : string) (form : Form)
    (location : LatLng) (w : World) (entries : list ResultEntry) : EmergencyLog :=
  mkEmergencyLog (randomUUID rt (uuids_drawn w)) userId
                 (AlertType_to_string (form_alertType form))
                 (message_or_default (form_message form) (form_alertType form))
                 (Some location) (form_locationAddress form)
                 (now rt (uuids_drawn w)) "pending" (Some entries).

Definition page_event (rt : Runtime) (form : Form) (location : LatLng)
    (w : World) (contacts : nat) : EventRow :=
  mkEventRow (randomUUID rt (uuids_drawn w)) "alert_created"
             ("Emergency alert triggered: " +:+ AlertType_to_string (form_alertType form))
             (Some location)
             (message_or_default (form_message form) (form_alertType form)) contacts.

(** What validation answers for a form with the location [location]. *)
Definition parsed (safeParse : AlertInput → option string) (form : Form)
    (location : LatLng) : option string :=
  safeParse (mkAlertInput (form_alertType form)
               (if Boolean_string (form_message form)
                then Some (form_message form) else None)
               (lat location) (lng location) (form_locationAddress form)).

(** The events of the [finally] block. *)
Definition reset_events : list UiEvent :=
  [SetLoading false; SetIsEmergencyActive false; SetCountdown None].

Module SamplePage.

Definition tables_up : Tables :=
  mkTables (λ _, Normal (mkContactsReply (Some [Sample.contact_with_phone]) None))
           (λ _, Normal tt).

Definition tables_down : Tables :=
  mkTables (λ _, Normal (mkContactsReply None (Some "permission denied")))
           (λ _, Normal tt).

(** Contacts are served, the events insert rejects. *)
Definition tables_late : Tables :=
  mkTables (λ _, Normal (mkContactsReply (Some [Sample.contact_with_phone]) None))
           (λ _, Throw (NetworkError "fetch failed")).

Definition accept_all : AlertInput → option string := λ _, None.

Definition here : LatLng := mkLatLng (mkNumber 0) (mkNumber 0).

Definition form : Form := mkForm (Some "user-1") fire "" (Some here) "Main Street 1".

Definition page : Page := mkPage (mkWorld ∅ [] 0) Sample.empty_storage [].

End SamplePage.

(** ** The edge function notify-emergency, in its two versions *)

(** What the handler reads of a request: the method, the authorization
    header, and what [await req.json()] followed by [const { alertId } =]
    gives (an absent [alertId] is [None]; a body that does not parse, or
    parses to [null], throws). *)
Record EdgeRequest : Type := mkEdgeRequest {
  req_method : string;
  req_authorization : option string;
  req_alertId : Completion (option string)
}.

Inductive ResponseBody : Type :=
  | NullBody
  | ErrorBody (error : string)
  | ThrownBody (thrown : Exn)       (* [{ error: errorMessage }], read off the value caught *)
  | SuccessBody (message : string) (contactsNotified : nat).

Record Response : Type := mkResponse {
  status : nat;
  body : ResponseBody;
  cors_headers : bool;
  json_content_type : bool
}.

(** [{ data: { user }, error }] of [auth.getUser()]; of the user only the
    id is read. *)
Record AuthReply : Type := mkAuthReply {
  auth_user : option string;
  auth_error : option string
}.

Record Profile : Type := mkProfile {
  full_name : string;
  profile_phone : string;
  profile_address : string
}.

(** A row of the alerts table joined with the profile of its user. *)
Record AlertRecord : Type := mkAlertRecord {
  rec_user_id : string;
  rec_type : string;
  rec_location_address : option string;
  rec_profiles : option Profile
}.

Record AlertReply : Type := mkAlertReply {
  alert_data : option AlertRecord;
  alert_error : option string
}.

(** The row inserted into the events table by the function. *)
Record EdgeEvent : Type := mkEdgeEvent {
  edge_alert_id : option string;
  edge_event_type : string;
  edge_description : string;
  edge_alert_type : string;
  edge_contacts_notified : nat
}.

(** The requests the function sends to the backend. *)
Inductive BackendCall : Type :=
  | GetUser (authorization : string)
  | SelectAlert (alertId : option string) (owner : option string)
  | SelectContacts (userId : string)
  | InsertEvent (row : EdgeEvent).

(** The environment of the function and the backend behind it. The
    client constructor is the library's: it rejects what it does not
    accept as URL or key. *)
Record EdgeBackend : Type := mkEdgeBackend {
  SUPABASE_URL : option string;
  SUPABASE_SERVICE_ROLE_KEY : option string;
  SUPABASE_ANON_KEY : option string;
  createClient : option string → option string → Completion unit;
  auth_getUser : string → Completion AuthReply;
  alerts_single : option string → option string → Completion AlertReply;
  edge_contacts_select : string → Completion ContactsReply;
  edge_events_insert : EdgeEvent → Completion unit
}.

(** The function keeps no state of its own; what is recorded is the
    sequence of requests it sent. Console output is left out. *)
Definition EdgeM : Type → Type := Eff.M (list BackendCall).

(** Sending a request and awaiting its reply. *)
Definition request {A} (c : BackendCall) (reply : Completion A) : EdgeM A :=
  Eff.modify (λ sent, sent ++ [c])%list;; Eff.await reply.

Definition json_response (status : nat) (body : ResponseBody) : Response :=
  mkResponse status body true true.

(** [contacts?.length || 0] *)
Definition contacts_count (data : option (list Contact)) : nat :=
  match data with Some contacts => length contacts | None => 0 end.

Definition notification_event (alertId : option string) (alert : AlertRecord)
    (data : option (list Contact)) : EdgeEvent :=
  mkEdgeEvent alertId "notifications_sent"
              ("Notified " +:+ pretty (contacts_count data) +:+ " contacts and authorities")
              (rec_type alert) (contacts_count data).

Section EdgeFunction.

Context (be : EdgeBackend).

(** The version that verifies the caller. *)
Definition serve_verified (req : EdgeRequest) : EdgeM Response :=
  if String.eqb (req_method req) "OPTIONS"
  then mret (mkResponse 200 NullBody true false)
  else
    Eff.try_catch
      (match req_authorization req with
       | Some authHeader =>
           if Boolean_string authHeader then
             alertId ← Eff.await (req_alertId req);
             Eff.await (createClient be (SUPABASE_URL be) (SUPABASE_ANON_KEY be));;
             auth ← request (GetUser authHeader) (auth_getUser be authHeader);
             match auth_error auth, auth_user auth with
             | None, Some userId =>
                 Eff.await (createClient be (SUPABASE_URL be)
                                         (SUPABASE_SERVICE_ROLE_KEY be));;
                 found ← request (SelectAlert alertId (Some userId))
                                 (alerts_single be alertId (Some userId));
                 match alert_error found, alert_data found with
                 | None, Some alert =>
                     contacts ← request (SelectContacts (rec_user_id alert))
                                        (edge_contacts_select be (rec_user_id alert));
                     match contacts_error contacts with
                     | Some contactsError => Eff.throw (PostgrestError contactsError)
                     | None =>
                         let event := notification_event alertId alert
                                                         (contacts_data contacts) in
                         request (InsertEvent event) (edge_events_insert be event);;
                         mret (json_response 200
                                 (SuccessBody "Emergency notifications sent"
                                    (contacts_count (contacts_data contacts))))
                     end
                 | _, _ =>
                     mret (json_response 403 (ErrorBody "Alert not found or access denied"))
                 end
             | _, _ => mret (json_response 401 (ErrorBody "Invalid token"))
             end
           else mret (json_response 401 (ErrorBody "Unauthorized"))
       | None => mret (json_response 401 (ErrorBody "Unauthorized"))
       end)
      (λ error, mret (json_response 500 (ThrownBody error))).

(** The version under supabase/functions/notify-emergency. *)
Definition serve_open (req : EdgeRequest) : EdgeM Response :=
  if String.eqb (req_method req) "OPTIONS"
  then mret (mkResponse 200 NullBody true false)
  else
    Eff.try_catch
      (alertId ← Eff.await (req_alertId req);
       Eff.await (createClient be (SUPABASE_URL be) (SUPABASE_SERVICE_ROLE_KEY be));;
       found ← request (SelectAlert alertId None) (alerts_single be alertId None);
       match alert_error found with
       | Some alertError => Eff.throw (PostgrestError alertError)
       | None =>
           alert ← match alert_data found with
                   | Some alert => mret alert
                   | None => Eff.throw (TypeError "Cannot read properties of null")
                   end;
           contacts ← request (SelectContacts (rec_user_id alert))
                              (edge_contacts_select be (rec_user_id alert));
           match contacts_error contacts with
           | Some contactsError => Eff.throw (PostgrestError contactsError)
           | None =>
               let event := notification_event alertId alert (contacts_data contacts) in
               request (InsertEvent event) (edge_events_insert be event);;
               (* console.log(`User: ${alert.profiles.full_name}`) *)
               match rec_profiles alert with
               | Some _ =>
                   mret (json_response 200
                           (SuccessBody "Emergency notifications sent"
                              (contacts_count (contacts_data contacts))))
               | None => Eff.throw (TypeError "Cannot read properties of null")
               end
           end
       end)
      (λ error, mret (json_response 500 (ThrownBody error))).

End EdgeFunction.

Module SampleEdge.

Definition alert_row (profile : option Profile) : AlertRecord :=
  mkAlertRecord "user-1" "fire" (Some "Main Street 1") profile.

(** A backend holding one alert, "alert-1" of "user-1", whose token is
    "Bearer t1". *)
Definition backend (profile : option Profile) : EdgeBackend :=
  mkEdgeBackend (Some "https://db.example") (Some "service-key") (Some "anon-key")
    (λ _ _, Normal tt)
    (λ authorization,
       if String.eqb authorization "Bearer t1"
       then Normal (mkAuthReply (Some "user-1") None)
       else Normal (mkAuthReply None (Some "invalid JWT")))
    (λ alertId owner,
       match alertId, owner with
       | Some "alert-1", (None | Some "user-1") =>
           Normal (mkAlertReply (Some (alert_row profile)) None)
       | _, _ => Normal (mkAlertReply None (Some "no rows"))
       end)
    (λ _, Normal (mkContactsReply (Some [Sample.contact_with_phone]) None))
    (λ _, Normal tt).

Definition post (authorization : option string) (alertId : string) : EdgeRequest :=
  mkEdgeRequest "POST" authorization (Normal (Some alertId)).

End SampleEdge.

(** ** LocationService.ts *)

Record LocationData : Type := mkLocationData {
  data_lat : Number;
  data_lng : Number;
  data_address : string;
  data_timestamp : Z
}.

(** How a promise settles; a rejection carries the message of its
    [Error]. *)
Inductive Settled (A : Type) : Type :=
  | Resolved (value : A)
  | Rejected (message : string).
Arguments Resolved {A} value.
Arguments Rejected {A} message.

(** What the geolocation API reports to the callbacks of
    [getCurrentPosition] and [watchPosition]. *)
Inductive PositionReport : Type :=
  | PositionFound (latitude longitude : Number)
  | PositionFailed (message : string).

(** The parsed body of the reverse-geocoding reply: [null], or an object
    that may have a [display_name]. *)
Inductive GeocodeJson : Type :=
  | GeocodeNull
  | GeocodeObject (display_name : option string).

(** The browser around the service: whether [navigator] has
    [geolocation], the watches that are active, the clock, the request to
    the geocoder ([fetch] and [response.json()] together: either may
    reject) and [Number.prototype.toFixed(6)]. *)
Record Browser : Type := mkBrowser {
  has_geolocation : bool;
  active_watches : gset nat;
  clock : Z;
  geocode : Number → Number → Completion GeocodeJson;
  toFixed6 : Number → string
}.

(** The fields of the one [LocationService] instance, and the browser. *)
Record Location : Type := mkLocation {
  _currentLocation : option LocationData;
  _watchId : option nat;
  browser : Browser
}.

Definition LocationM : Type → Type := Eff.M Location.

(** [`Lat: ${lat.toFixed(6)}, Lng: ${lng.toFixed(6)}`] *)
Definition coordinates_text (b : Browser) (latitude longitude : Number) : string :=
  "Lat: " +:+ toFixed6 b latitude +:+ ", Lng: " +:+ toFixed6 b longitude.

(** [reverseGeocode(lat, lng)] *)
Definition reverseGeocode (latitude longitude : Number) : LocationM string :=
  Eff.try_catch
    (b ← Eff.gets browser;
     data ← Eff.await (geocode b latitude longitude);
     match data with
     | GeocodeNull => Eff.throw (TypeError "Cannot read properties of null")
     | GeocodeObject display_name =>
         if Boolean_optional display_name
         then mret (default "" display_name)
         else mret (coordinates_text b latitude longitude)
     end)
    (λ _, b ← Eff.gets browser; mret (coordinates_text b latitude longitude)).

(** The success callback shared by [captureLocation] and
    [startWatchingLocation]: geocode, then store the location. *)
Definition locate (latitude longitude : Number) : LocationM LocationData :=
  address ← reverseGeocode latitude longitude;
  b ← Eff.gets browser;
  let data := mkLocationData latitude longitude address (clock b) in
  Eff.modify (λ s, mkLocation (Some data) (_watchId s) (browser s));;
  mret data.

(** [captureLocation()], with the report [getCurrentPosition] delivers. *)
Definition captureLocation (report : PositionReport) : LocationM (Settled LocationData) :=
  b ← Eff.gets browser;
  if has_geolocation b then
    match report with
    | PositionFound latitude longitude =>
        data ← locate latitude longitude;
        mret (Resolved data)
    | PositionFailed message =>
        mret (Rejected ("Location error: " +:+ message))
    end
  else mret (Rejected "Geolocation is not supported by your browser").

(** [navigator.geolocation.watchPosition(...)]: a new watch and its id. *)
Definition watchPosition : LocationM nat :=
  λ s, let b := browser s in
       let id := fresh (active_watches b) in
       (Normal id,
        mkLocation (_currentLocation s) (_watchId s)
                   (mkBrowser (has_geolocation b) ({[id]} ∪ active_watches b)
                              (clock b) (geocode b) (toFixed6 b))).

(** [navigator.geolocation.clearWatch(id)] *)
Definition clearWatch (id : nat) : LocationM unit :=
  Eff.modify (λ s, let b := browser s in
                   mkLocation (_currentLocation s) (_watchId s)
                              (mkBrowser (has_geolocation b) (active_watches b ∖ {[id]})
                                         (clock b) (geocode b) (toFixed6 b))).

(** [startWatchingLocation(callback)]: the callback runs later, on each
    report; here the watch is registered. *)
Definition startWatchingLocation : LocationM unit :=
  b ← Eff.gets browser;
  if has_geolocation b then
    id ← watchPosition;
    Eff.modify (λ s, mkLocation (_currentLocation s) (Some id) (browser s))
  else mret tt.

(** [stopWatchingLocation()] *)
Definition stopWatchingLocation : LocationM unit :=
  watchId ← Eff.gets _watchId;
  match watchId with
  | Some id =>
      clearWatch id;;
      Eff.modify (λ s, mkLocation (_currentLocation s) None (browser s))
  | None => mret tt
  end.

Module SampleLocation.

Definition browser_offline : Browser :=
  mkBrowser true ∅ 1700000000000 (λ _ _, Throw (NetworkError "fetch failed"))
            (λ n, "n" +:+ pretty (bits n)).

Definition service : Location := mkLocation None None browser_offline.

End SampleLocation.

(** * Properties *)

(** ** Running the monad *)

Lemma bind_normal {S A B} (m : Eff.M S A) (k : A → Eff.M S B) s a s' :
  m s = (Normal a, s') → (m ≫= k) s = k a s'.
Proof. intros H. eff_unfold. by rewrite H. Qed.

Lemma bind_throw {S A B} (m : Eff.M S A) (k : A → Eff.M S B) s e s' :
  m s = (Throw e, s') → (m ≫= k) s = (Throw e, s').
Proof. intros H. eff_unfold. by rewrite H. Qed.

Lemma try_catch_normal {S A} (body : Eff.M S A) handler s a s' :
  body s = (Normal a, s') → Eff.try_catch body handler s = (Normal a, s').
Proof. intros H. unfold Eff.try_catch. by rewrite H. Qed.

Lemma try_catch_throw {S A} (body : Eff.M S A) handler s e s' :
  body s = (Throw e, s') → Eff.try_catch body handler s = handler e s'.
Proof. intros H. unfold Eff.try_catch. by rewrite H. Qed.

(** ** Alert: fields behind a reference *)

Lemma deref_run {B} this (k : Alert → AlertM B) w a :
  heap w !! this = Some a → (deref this ≫= k) w = k a w.
Proof. intros H. apply bind_normal. unfold deref. by rewrite H. Qed.

Lemma set_status_run this value w a :
  heap w !! this = Some a →
  set_status this value w
  = (Normal tt, mkWorld (<[this := with_status value a]> (heap w)) (console w) (uuids_drawn w)).
Proof. intros H. unfold set_status. by rewrite (deref_run _ _ _ a). Qed.

Lemma get_status_run this w a :
  heap w !! this = Some a → get_status this w = (Normal (_status a), w).
Proof. intros H. unfold get_status. by rewrite (deref_run _ _ _ a). Qed.

Lemma with_status_idem v v' a : with_status v (with_status v' a) = with_status v a.
Proof. done. Qed.

Lemma with_status_same a : with_status (_status a) a = a.
Proof. by destruct a. Qed.

(** ** The channels *)

Section ChannelFacts.

Context (rt : Runtime) (supabase : Supabase).


(** Sending on an object that exists completes normally, whatever the
    backend does; only the status of the receiver and the console change. *)
Lemma sendAlert_run this w a :
  heap w !! this = Some a →
  sendAlert supabase this w
  = (Normal (outcome supabase a),
     mkWorld (<[this := with_status (status_for (outcome supabase a)) a]> (heap w))
             (console w ++ [announcement (subclass a)])%list
             (uuids_drawn w)).
Proof.
  intros H. unfold sendAlert. rewrite (deref_run _ _ _ a) by done.
  unfold outcome, status_for.
  destruct (subclass a) as [ps|es|auth|ts] eqn:Hsub; simpl.
  - unfold SMSAlert_sendAlert, console_log. eff_unfold. simpl.
    rewrite set_status_run with (a := a) by done. done.
  - unfold EmailAlert_sendAlert, console_log. eff_unfold. simpl.
    rewrite set_status_run with (a := a) by done. done.
  - unfold AuthorityAlert_sendAlert, backend_accepts, console_log.
    eff_unfold. simpl. unfold deref. simpl. rewrite H.
    destruct (alerts_insert supabase (toDatabase a)) as [[d [err|]]|e]; simpl.
    + rewrite set_status_run with (a := a) by done.
      by destruct d.
    + destruct d as [alertId|]; simpl.
      * destruct (functions_invoke supabase "notify-emergency" alertId); simpl;
          rewrite set_status_run with (a := a) by done; done.
      * rewrite set_status_run with (a := a) by done. done.
    + rewrite set_status_run with (a := a) by done. done.
  - unfold PushNotificationAlert_sendAlert, console_log. eff_unfold. simpl.
    rewrite set_status_run with (a := a) by done. done.
Qed.

Lemma fresh_reference_unused (w : World) : heap w !! fresh (dom (heap w)) = None.
Proof. apply not_elem_of_dom, is_fresh. Qed.

(** [new C(...)] followed by [sendAlert] on the new object. *)
Lemma dispatch_run {B} a sub tag acc (k : SendResult → AlertM B) :
  (new_alert rt (_userId a) (_type a) (_message a) (_location a)
             (_locationAddress a) sub
     ≫= λ l, sendAlert supabase l ≫= k) acc.2
  = k (outcome supabase (built_from rt a sub acc.2))
      (channel rt supabase a sub tag acc).2.
Proof.
  destruct acc as [rs w]. cbn [snd].
  rewrite (bind_normal _ _ w (fresh (dom (heap w)))
             (mkWorld (<[fresh (dom (heap w)) := built_from rt a sub w]> (heap w))
                      (console w) (S (uuids_drawn w)))) by done.
  cbv beta.
  match goal with
  | |- (sendAlert _ ?l ≫= _) ?w' = _ =>
      assert (Hobj : heap w' !! l = Some (built_from rt a sub w))
        by apply lookup_insert_eq;
      rewrite (bind_normal _ _ _ _ _ (sendAlert_run l w' _ Hobj))
  end.
  unfold channel. simpl. by rewrite insert_insert_eq.
Qed.

(** A channel leaves every object that existed before as it was. *)
Lemma channel_frame a sub tag acc l :
  is_Some (heap acc.2 !! l) →
  heap (channel rt supabase a sub tag acc).2 !! l = heap acc.2 !! l.
Proof.
  intros [x Hx]. unfold channel. simpl. apply lookup_insert_ne.
  intros <-. rewrite fresh_reference_unused in Hx. done.
Qed.

End ChannelFacts.

(** ** NotificationService.notifyAll *)

Section NotifyAllFacts.

Context (rt : Runtime) (supabase : Supabase).

Lemma stage_run alert a sub tag acc :
  heap acc.2 !! alert = Some a →
  (a' ← deref alert;
   l ← new_alert rt (_userId a') (_type a') (_message a') (_location a')
                 (_locationAddress a') sub;
   result ← sendAlert supabase l;
   mret (push acc.1 (tagged tag result))) acc.2
  = (Normal (channel rt supabase a sub tag acc).1,
     (channel rt supabase a sub tag acc).2).
Proof.
  intros H. rewrite (deref_run _ _ _ a) by done.
  by rewrite (dispatch_run rt supabase a sub tag acc).
Qed.

Lemma channels_frame a contacts w l :
  is_Some (heap w !! l) →
  heap (channels rt supabase a contacts w).2 !! l = heap w !! l.
Proof.
  intros Hl. unfold channels.
  set (s0 := (([] : list ResultEntry), w)).
  set (s1 := if bool_decide (0 < length (phones_of contacts)) then _ else s0).
  set (s2 := if bool_decide (0 < length (emails_of contacts)) then _ else s1).
  set (s3 := channel rt supabase a _ "Authority" s2).
  assert (H1 : heap s1.2 !! l = heap w !! l).
  { subst s1. case_bool_decide; [|done]. by rewrite channel_frame. }
  assert (H2 : heap s2.2 !! l = heap w !! l).
  { subst s2. case_bool_decide; [|done].
    rewrite channel_frame; [done|]. by rewrite H1. }
  assert (H3 : heap s3.2 !! l = heap w !! l).
  { subst s3. rewrite channel_frame; [done|]. by rewrite H2. }
  rewrite channel_frame; [done|]. by rewrite H3.
Qed.

(** [notifyAll] on an alert that exists completes normally, with the
    results and the world of the four channels in sequence. *)
Lemma notifyAll_run alert a contacts w :
  heap w !! alert = Some a →
  notifyAll rt supabase alert contacts w
  = (Normal (mkNotifyResult
               (forallb entry_success (channels rt supabase a contacts w).1)
               (channels rt supabase a contacts w).1),
     (channels rt supabase a contacts w).2).
Proof.
  intros H. unfold notifyAll, channels.
  fold (phones_of contacts). fold (emails_of contacts).
  unfold new_SMSAlert, new_EmailAlert, new_AuthorityAlert, new_PushNotificationAlert.
  fold device_tokens.
  set (s0 := (([] : list ResultEntry), w)).
  set (s1 := if bool_decide (0 < length (phones_of contacts)) then _ else s0).
  set (s2 := if bool_decide (0 < length (emails_of contacts)) then _ else s1).
  set (s3 := channel rt supabase a _ "Authority" s2).
  assert (H0 : heap s0.2 !! alert = Some a) by done.
  assert (H1 : heap s1.2 !! alert = Some a).
  { subst s1. case_bool_decide; [|done].
    rewrite channel_frame; [done|]. by rewrite H0. }
  assert (H2 : heap s2.2 !! alert = Some a).
  { subst s2. case_bool_decide; [|done].
    rewrite channel_frame; [done|]. by rewrite H1. }
  assert (H3 : heap s3.2 !! alert = Some a).
  { subst s3. rewrite channel_frame; [done|]. by rewrite H2. }
  rewrite (bind_normal _ _ w s1.1 s1.2); cycle 1.
  { subst s1. case_bool_decide; [|done].
    apply (stage_run alert a _ "SMS" s0 H0). }
  rewrite (bind_normal _ _ s1.2 s2.1 s2.2); cycle 1.
  { subst s2. case_bool_decide; [|by destruct s1].
    apply (stage_run alert a _ "Email" s1 H1). }
  rewrite (deref_run _ _ _ a) by done.
  rewrite (dispatch_run rt supabase a _ "Authority" s2).
  rewrite (deref_run _ _ _ a) by done.
  rewrite (dispatch_run rt supabase a _ "Push" s3).
  done.
Qed.

End NotifyAllFacts.

Lemma Boolean_string_spec s : Boolean_string s = true ↔ s ≠ "".
Proof. destruct s; simpl; split; intros; congruence. Qed.

Lemma phones_of_nonempty contacts :
  0 < length (phones_of contacts) ↔ ∃ c, c ∈ contacts ∧ phone c ≠ "".
Proof.
  unfold phones_of. induction contacts as [|c cs IH]; simpl.
  - split; [lia|]. intros (c & Hc & _). by apply elem_of_nil in Hc.
  - destruct (Boolean_string (phone c)) eqn:Hp; simpl.
    + split; [|lia]. intros _. exists c. split; [left|].
      by apply Boolean_string_spec.
    + rewrite IH. split.
      * intros (c' & Hc' & Hne). exists c'. split; [by right|done].
      * intros (c' & Hc' & Hne). apply elem_of_cons in Hc' as [->|Hc'].
        -- apply Boolean_string_spec in Hne. congruence.
        -- eauto.
Qed.

Lemma emails_of_nonempty contacts :
  0 < length (emails_of contacts)
  ↔ ∃ c e, c ∈ contacts ∧ email c = Some e ∧ e ≠ "".
Proof.
  unfold emails_of, as_strings. induction contacts as [|c cs IH]; simpl.
  - split; [lia|]. intros (c & e & Hc & _). by apply elem_of_nil in Hc.
  - destruct (email c) as [e|] eqn:He; simpl.
    + destruct (Boolean_string e) eqn:Hp; simpl.
      * split; [|lia]. intros _. exists c, e. split; [left|].
        split; [done|]. by apply Boolean_string_spec.
      * rewrite IH. split.
        -- intros (c' & e' & Hc' & Hne). exists c', e'. split; [by right|done].
        -- intros (c' & e' & Hc' & He' & Hne).
           apply elem_of_cons in Hc' as [->|Hc'].
           ++ apply Boolean_string_spec in Hne. congruence.
           ++ eauto.
    + rewrite IH. split.
      * intros (c' & e' & Hc' & Hne). exists c', e'. split; [by right|done].
      * intros (c' & e' & Hc' & He' & Hne).
        apply elem_of_cons in Hc' as [->|Hc']; [congruence|eauto].
Qed.

Section ChannelsFacts.

Context (rt : Runtime) (supabase : Supabase).

Lemma channel_tags a sub tag acc :
  map entry_type (channel rt supabase a sub tag acc).1
  = (map entry_type acc.1 ++ [tag])%list.
Proof. unfold channel, push. simpl. by rewrite map_app. Qed.

Lemma channel_console a sub tag acc :
  console (channel rt supabase a sub tag acc).2
  = (console acc.2 ++ [announcement sub])%list.
Proof. done. Qed.

(** The entries and the console lines of a dispatch, channel by channel. *)
Lemma channels_tags a contacts w :
  map entry_type (channels rt supabase a contacts w).1
  = ((if bool_decide (0 < length (phones_of contacts)) then ["SMS"] else [])
     ++ (if bool_decide (0 < length (emails_of contacts)) then ["Email"] else [])
     ++ ["Authority"; "Push"])%list.
Proof.
  unfold channels. rewrite !channel_tags.
  do 2 case_bool_decide; rewrite ?channel_tags; done.
Qed.

Lemma channels_console a contacts w :
  console (channels rt supabase a contacts w).2
  = (console w
     ++ (if bool_decide (0 < length (phones_of contacts))
         then [LogSendingSMS (length (phones_of contacts))] else [])
     ++ (if bool_decide (0 < length (emails_of contacts))
         then [LogSendingEmail (length (emails_of contacts))] else [])
     ++ [LogNotifying (determineAuthority (_type a)); LogSendingPush 2])%list.
Proof.
  unfold channels. rewrite !channel_console.
  do 2 case_bool_decide; rewrite ?channel_console; simpl;
    rewrite <- ?app_assoc; simpl; by rewrite ?app_nil_r.
Qed.

Lemma channels_nonempty a contacts w :
  (channels rt supabase a contacts w).1 ≠ [].
Proof.
  intros H. apply (f_equal (map entry_type)) in H.
  rewrite channels_tags in H. do 2 case_bool_decide; discriminate.
Qed.

Lemma channels_last a contacts w :
  last (channels rt supabase a contacts w).1
  = Some (mkResultEntry "Push" true "Push notifications sent to 2 devices").
Proof. unfold channels, channel at 1, push. cbn [fst]. by rewrite last_snoc. Qed.

Lemma channel_grows a sub tag acc l :
  is_Some (heap acc.2 !! l) →
  is_Some (heap (channel rt supabase a sub tag acc).2 !! l).
Proof. intros H. by rewrite channel_frame. Qed.

(** The push alert of a dispatch: a new object, built with the two fixed
    device tokens and acknowledged by its own [sendAlert]. *)
Lemma channels_push_object a contacts w :
  ∃ l obj,
    heap w !! l = None
    ∧ heap (channels rt supabase a contacts w).2 !! l = Some obj
    ∧ subclass obj = PushNotificationAlert device_tokens
    ∧ _status obj = acknowledged.
Proof.
  unfold channels.
  set (s0 := (([] : list ResultEntry), w)).
  set (s1 := if bool_decide (0 < length (phones_of contacts)) then _ else s0).
  set (s2 := if bool_decide (0 < length (emails_of contacts)) then _ else s1).
  set (s3 := channel rt supabase a _ "Authority" s2).
  eexists (fresh (dom (heap s3.2))), _. split; [|split].
  - destruct (heap w !! fresh (dom (heap s3.2))) eqn:Hl; [|done].
    exfalso.
    assert (H1 : is_Some (heap s1.2 !! fresh (dom (heap s3.2)))).
    { subst s1. case_bool_decide; [apply channel_grows|]; by eexists. }
    assert (H2 : is_Some (heap s2.2 !! fresh (dom (heap s3.2)))).
    { subst s2. case_bool_decide; [by apply channel_grows|done]. }
    assert (H3 : is_Some (heap s3.2 !! fresh (dom (heap s3.2)))).
    { subst s3. by apply channel_grows. }
    rewrite fresh_reference_unused in H3. by destruct H3.
  - unfold channel at 1. cbn [snd heap]. apply lookup_insert_eq.
  - done.
Qed.

End ChannelsFacts.

(** ** The alert handed to notifyAll *)

(** C1 (as amended). When [notifyAll(alert, contacts)] completes, the alert
    passed in is exactly as it was before the call, its status included,
    whatever the channel outcomes are: [notifyAll] never assigns the status
    of that alert, so it sets it neither to [acknowledged] nor to
    [resolved]. Only the channel alerts built inside change status. *)
Theorem notifyAll_leaves_alert_status rt supabase alert a contacts w :
  heap w !! alert = Some a →
  ∃ res w', notifyAll rt supabase alert contacts w = (Normal res, w')
            ∧ heap w' !! alert = Some a
            ∧ get_status alert w' = (Normal (_status a), w').
Proof.
  intros H. eexists _, _. split; [by apply notifyAll_run|].
  assert (H' : heap (channels rt supabase a contacts w).2 !! alert = Some a).
  { rewrite channels_frame; [done|]. by rewrite H. }
  split; [done|]. by apply get_status_run.
Qed.

Lemma notifyAll_leaves_alert_status_witness :
  heap (Sample.world pending) !! 0 = Some (Sample.the_alert pending)
  ∧ ∃ res w',
      notifyAll Sample.runtime Sample.backend_up 0 [Sample.contact_with_phone]
                (Sample.world pending) = (Normal res, w')
      ∧ heap w' !! 0 = Some (Sample.the_alert pending)
      ∧ get_status 0 w' = (Normal (_status (Sample.the_alert pending)), w').
Proof.
  split; [reflexivity|].
  apply (notifyAll_leaves_alert_status Sample.runtime Sample.backend_up 0
           (Sample.the_alert pending) [Sample.contact_with_phone]
           (Sample.world pending)).
  reflexivity.
Defined.

(** C1 as written fails: with no contacts and a backend that accepts every
    call, both outcomes succeed and the alert passed in is still pending. *)
Lemma notifyAll_acknowledges_counterexample :
  ¬ (∀ rt supabase alert contacts w res w',
       notifyAll rt supabase alert contacts w = (Normal res, w') →
       (forallb entry_success (results res) = true →
        answer (get_status alert) w' = Normal acknowledged)
       ∧ (forallb entry_success (results res) = false →
          answer (get_status alert) w' = Normal pending)).
Proof.
  intros claim.
  destruct (claim Sample.runtime Sample.backend_up 0 [] (Sample.world pending)
                  _ _ eq_refl) as [Hack _].
  specialize (Hack eq_refl). vm_compute in Hack. discriminate.
Qed.

(** ** Alert.status *)

(** C2 (as amended). The setter of [status] has no guard: on every alert
    it completes normally and overwrites the status with the value given,
    backward moves out of [resolved] included; no other field changes. *)
Theorem set_status_overwrites this value w a :
  heap w !! this = Some a →
  ∃ w', set_status this value w = (Normal tt, w')
        ∧ heap w' !! this = Some (with_status value a)
        ∧ get_status this w' = (Normal value, w').
Proof.
  intros H. eexists. split; [by apply set_status_run|].
  assert (H' : <[this := with_status value a]> (heap w) !! this
               = Some (with_status value a)) by apply lookup_insert_eq.
  split; [done|]. by rewrite (get_status_run _ _ (with_status value a)).
Qed.

Lemma set_status_overwrites_witness :
  heap (Sample.world resolved) !! 0 = Some (Sample.the_alert resolved)
  ∧ ∃ w', set_status 0 pending (Sample.world resolved) = (Normal tt, w')
          ∧ heap w' !! 0 = Some (with_status pending (Sample.the_alert resolved))
          ∧ get_status 0 w' = (Normal pending, w').
Proof.
  split; [reflexivity|].
  apply (set_status_overwrites 0 pending (Sample.world resolved)
           (Sample.the_alert resolved)).
  reflexivity.
Defined.

(** C2 as written fails: on a resolved alert, setting [pending] does not
    fail; it completes and the alert is pending afterwards. *)
Lemma set_status_backward_counterexample :
  ¬ (∀ this w value,
       answer (get_status this) w = Normal resolved →
       value = pending ∨ value = acknowledged →
       ∃ e, set_status this value w = (Throw e, w)).
Proof.
  intros claim.
  destruct (claim 0 (Sample.world resolved) pending eq_refl (or_introl eq_refl))
    as [e He].
  vm_compute in He. discriminate.
Qed.

(** ** The authority label *)

(** C6 (as amended). The authority channel takes its label from a fixed
    lookup on the category: medical gives "911 Medical", fire gives
    "Fire Department", police gives "Police Department" and general gives
    "Emergency Services"; the alert the constructor builds carries that
    label whatever the runtime and the world are. *)
Theorem determineAuthority_table :
  determineAuthority medical = "911 Medical"
  ∧ determineAuthority fire = "Fire Department"
  ∧ determineAuthority police = "Police Department"
  ∧ determineAuthority general = "Emergency Services"
  ∧ ∀ rt userId type msg location address w,
      ∃ l w', new_AuthorityAlert rt userId type msg location address w = (Normal l, w')
              ∧ subclass <$> heap w' !! l = Some (AuthorityAlert (determineAuthority type)).
Proof.
  repeat split. intros. eexists _, _. split; [reflexivity|].
  simpl. by rewrite lookup_insert_eq.
Qed.

(** C6 as written fails: the labels of the code are not the ones listed. *)
Lemma determineAuthority_labels_counterexample :
  ¬ (determineAuthority medical = "medical services"
     ∧ determineAuthority fire = "fire department"
     ∧ determineAuthority police = "police department"
     ∧ determineAuthority general = "general emergency services").
Proof. intros [H _]. vm_compute in H. discriminate. Qed.

(** ** Which channels a dispatch uses *)

(** C3. [notifyAll] sends on the SMS channel exactly when some contact
    has a non-empty phone, on the Email channel exactly when some contact
    has a non-empty email, and always on the Authority and Push channels,
    in that order; each channel used contributes one entry and a channel
    skipped contributes none. With no contacts the entries are an
    Authority entry and a Push entry. *)
Theorem notifyAll_channels rt supabase alert a contacts w :
  heap w !! alert = Some a →
  ∃ res w' (sms_used email_used : bool),
    notifyAll rt supabase alert contacts w = (Normal res, w')
    ∧ (sms_used = true ↔ ∃ c, c ∈ contacts ∧ phone c ≠ "")
    ∧ (email_used = true ↔ ∃ c e, c ∈ contacts ∧ email c = Some e ∧ e ≠ "")
    ∧ map entry_type (results res)
      = ((if sms_used then ["SMS"] else []) ++ (if email_used then ["Email"] else [])
         ++ ["Authority"; "Push"])%list
    ∧ console w'
      = (console w
         ++ (if sms_used then [LogSendingSMS (length (phones_of contacts))] else [])
         ++ (if email_used then [LogSendingEmail (length (emails_of contacts))] else [])
         ++ [LogNotifying (determineAuthority (_type a)); LogSendingPush 2])%list
    ∧ (contacts = [] → map entry_type (results res) = ["Authority"; "Push"]).
Proof.
  intros H.
  exists (mkNotifyResult
            (forallb entry_success (channels rt supabase a contacts w).1)
            (channels rt supabase a contacts w).1),
         (channels rt supabase a contacts w).2,
         (bool_decide (0 < length (phones_of contacts))),
         (bool_decide (0 < length (emails_of contacts))).
  split; [by apply notifyAll_run|].
  split; [by rewrite bool_decide_eq_true, phones_of_nonempty|].
  split; [by rewrite bool_decide_eq_true, emails_of_nonempty|].
  split; [apply channels_tags|].
  split; [apply channels_console|].
  intros ->. cbn [results]. by rewrite channels_tags.
Qed.

Lemma notifyAll_channels_witness :
  heap (Sample.world pending) !! 0 = Some (Sample.the_alert pending)
  ∧ ∃ res w' (sms_used email_used : bool),
      notifyAll Sample.runtime Sample.backend_up 0 [Sample.contact_with_phone]
                (Sample.world pending) = (Normal res, w')
      ∧ (sms_used = true ↔ ∃ c, c ∈ [Sample.contact_with_phone] ∧ phone c ≠ "")
      ∧ (email_used = true
         ↔ ∃ c e, c ∈ [Sample.contact_with_phone]
                  ∧ email c = Some e ∧ e ≠ "")
      ∧ map entry_type (results res)
        = ((if sms_used then ["SMS"] else []) ++ (if email_used then ["Email"] else [])
           ++ ["Authority"; "Push"])%list
      ∧ console w'
        = (console (Sample.world pending)
           ++ (if sms_used
               then [LogSendingSMS (length (phones_of [Sample.contact_with_phone]))]
               else [])
           ++ (if email_used
               then [LogSendingEmail (length (emails_of [Sample.contact_with_phone]))]
               else [])
           ++ [LogNotifying (determineAuthority (_type (Sample.the_alert pending)));
               LogSendingPush 2])%list
      ∧ ([Sample.contact_with_phone] = [] →
         map entry_type (results res) = ["Authority"; "Push"]).
Proof.
  split; [reflexivity|].
  apply (notifyAll_channels Sample.runtime Sample.backend_up 0
           (Sample.the_alert pending) [Sample.contact_with_phone]
           (Sample.world pending)).
  reflexivity.
Defined.

(** ** The overall flag *)

(** C4. The flag [success] that [notifyAll] returns is the conjunction of
    the [success] flags of the entries of [results]: it is true exactly
    when every entry succeeded; and [results] is never empty, since the
    Authority and Push channels always run. *)
Theorem notifyAll_success_is_conjunction rt supabase alert a contacts w :
  heap w !! alert = Some a →
  ∃ res w',
    notifyAll rt supabase alert contacts w = (Normal res, w')
    ∧ all_success res = forallb entry_success (results res)
    ∧ (all_success res = true ↔ ∀ e, e ∈ results res → entry_success e = true)
    ∧ results res ≠ [].
Proof.
  intros H. eexists _, _. split; [by apply notifyAll_run|]. cbn [all_success results].
  split; [done|]. split; [|apply channels_nonempty].
  rewrite forallb_forall. split; intros Hall e He; apply Hall.
  - by apply list_elem_of_In.
  - by apply list_elem_of_In.
Qed.

Lemma notifyAll_success_is_conjunction_witness :
  heap (Sample.world pending) !! 0 = Some (Sample.the_alert pending)
  ∧ ∃ res w',
      notifyAll Sample.runtime Sample.backend_down 0 [Sample.contact_with_phone]
                (Sample.world pending) = (Normal res, w')
      ∧ all_success res = forallb entry_success (results res)
      ∧ (all_success res = true ↔ ∀ e, e ∈ results res → entry_success e = true)
      ∧ results res ≠ [].
Proof.
  split; [reflexivity|].
  apply (notifyAll_success_is_conjunction Sample.runtime Sample.backend_down 0
           (Sample.the_alert pending) [Sample.contact_with_phone]
           (Sample.world pending)).
  reflexivity.
Defined.

(** ** Failures stay inside the channel *)



(** ** The push channel *)

(** C10. On every alert and every contact list, [notifyAll] builds the
    push alert with exactly the device tokens "device-token-1" and
    "device-token-2", and the Push entry, the last of [results], is a
    success with the message "Push notifications sent to 2 devices",
    whatever the contacts are and whatever the other channels answer. *)
Theorem notifyAll_push_fixed rt supabase alert a contacts w :
  heap w !! alert = Some a →
  ∃ res w',
    notifyAll rt supabase alert contacts w = (Normal res, w')
    ∧ last (results res)
      = Some (mkResultEntry "Push" true "Push notifications sent to 2 devices")
    ∧ (∀ e, e ∈ results res → entry_type e = "Push" →
            e = mkResultEntry "Push" true "Push notifications sent to 2 devices")
    ∧ last (console w') = Some (LogSendingPush 2)
    ∧ ∃ l obj, heap w !! l = None
               ∧ heap w' !! l = Some obj
               ∧ subclass obj
                 = PushNotificationAlert ["device-token-1"; "device-token-2"].
Proof.
  intros H. eexists _, _. split; [by apply notifyAll_run|]. cbn [results].
  split; [apply channels_last|]. split; [|split].
  - intros e He Htype.
    unfold channels, channel at 1 2, push in He. cbn [fst] in He.
    rewrite <- app_assoc in He. apply elem_of_app in He as [He|He].
    + exfalso. do 2 case_bool_decide; unfold channel, push in He; cbn [fst] in He;
        repeat (apply elem_of_app in He as [He|He]);
        repeat (apply elem_of_cons in He as [->|He]);
        try (by apply elem_of_nil in He); discriminate.
    + apply elem_of_cons in He as [->|He]; [discriminate|].
      apply elem_of_cons in He as [->|He]; [done|]. by apply elem_of_nil in He.
  - rewrite channels_console, !app_assoc.
    change [LogNotifying (determineAuthority (_type a)); LogSendingPush 2]
      with ([LogNotifying (determineAuthority (_type a))] ++ [LogSendingPush 2])%list.
    rewrite app_assoc. apply last_snoc.
  - destruct (channels_push_object rt supabase a contacts w)
      as (l & obj & Hnew & Hobj & Hsub & _).
    by exists l, obj.
Qed.

Lemma notifyAll_push_fixed_witness :
  heap (Sample.world pending) !! 0 = Some (Sample.the_alert pending)
  ∧ ∃ res w',
      notifyAll Sample.runtime Sample.backend_down 0 [] (Sample.world pending)
      = (Normal res, w')
      ∧ last (results res)
        = Some (mkResultEntry "Push" true "Push notifications sent to 2 devices")
      ∧ (∀ e, e ∈ results res → entry_type e = "Push" →
              e = mkResultEntry "Push" true "Push notifications sent to 2 devices")
      ∧ last (console w') = Some (LogSendingPush 2)
      ∧ ∃ l obj, heap (Sample.world pending) !! l = None
                 ∧ heap w' !! l = Some obj
                 ∧ subclass obj
                   = PushNotificationAlert ["device-token-1"; "device-token-2"].
Proof.
  split; [reflexivity|].
  apply (notifyAll_push_fixed Sample.runtime Sample.backend_down 0
           (Sample.the_alert pending) [] (Sample.world pending)).
  reflexivity.
Defined.

(** ** FileHandler: reading and writing the storage *)

Lemma revive_id log : revive log = log.
Proof. by destruct log. Qed.

Lemma map_revive logs : map revive logs = logs.
Proof. induction logs as [|l ls IH]; simpl; [done|]. by rewrite revive_id, IH. Qed.

(** [readLogs] never throws and never writes. *)
Lemma readLogs_run ls : readLogs ls = (Normal (contents ls), ls).
Proof.
  unfold readLogs, contents, localStorage_getItem. eff_unfold.
  destruct (emergency_logs ls) as [[logs|text]|]; simpl; [|done..].
  by rewrite map_revive.
Qed.

Lemma stored_contents ls : stored ls = contents ls.
Proof. unfold stored, answer. by rewrite readLogs_run. Qed.

Lemma saveLog_run log ls :
  saveLog log ls
  = (Normal tt,
     if fits ls (take MAX_LOGS (log :: stored ls))
     then mkLocalStorage (Some (Json (take MAX_LOGS (log :: stored ls)))) (fits ls)
     else ls).
Proof.
  rewrite stored_contents. unfold saveLog.
  destruct (fits ls (take MAX_LOGS (log :: contents ls))) eqn:Hfit.
  - apply try_catch_normal. rewrite (bind_normal _ _ _ _ _ (readLogs_run ls)).
    unfold localStorage_setItem. by rewrite Hfit.
  - erewrite try_catch_throw; [done|].
    rewrite (bind_normal _ _ _ _ _ (readLogs_run ls)).
    unfold localStorage_setItem. by rewrite Hfit.
Qed.

Lemma deleteLog_run logId ls :
  deleteLog logId ls
  = (Normal tt,
     if fits ls (filter (λ log, log_id log ≠ logId) (stored ls))
     then mkLocalStorage
            (Some (Json (filter (λ log, log_id log ≠ logId) (stored ls)))) (fits ls)
     else ls).
Proof.
  rewrite stored_contents. unfold deleteLog.
  destruct (fits ls (filter (λ log, log_id log ≠ logId) (contents ls))) eqn:Hfit.
  - apply try_catch_normal. rewrite (bind_normal _ _ _ _ _ (readLogs_run ls)).
    unfold localStorage_setItem. by rewrite Hfit.
  - erewrite try_catch_throw; [done|].
    rewrite (bind_normal _ _ _ _ _ (readLogs_run ls)).
    unfold localStorage_setItem. by rewrite Hfit.
Qed.

Lemma clearAllLogs_run ls :
  clearAllLogs ls = (Normal tt, mkLocalStorage None (fits ls)).
Proof. done. Qed.

Lemma readUserLogs_run userId ls :
  readUserLogs userId ls
  = (Normal (filter (λ log, log_userId log = userId) (stored ls)), ls).
Proof.
  rewrite stored_contents. unfold readUserLogs.
  by rewrite (bind_normal _ _ _ _ _ (readLogs_run ls)).
Qed.

(** What each call leaves in the store. *)
Lemma stored_saveLog log ls :
  stored (state_after (saveLog log) ls)
  = if fits ls (take MAX_LOGS (log :: stored ls))
    then take MAX_LOGS (log :: stored ls) else stored ls.
Proof.
  unfold state_after. rewrite saveLog_run. cbn [snd].
  destruct (fits ls _); [|done]. by rewrite stored_contents.
Qed.

Lemma stored_deleteLog logId ls :
  stored (state_after (deleteLog logId) ls)
  = if fits ls (filter (λ log, log_id log ≠ logId) (stored ls))
    then filter (λ log, log_id log ≠ logId) (stored ls) else stored ls.
Proof.
  unfold state_after. rewrite deleteLog_run. cbn [snd].
  destruct (fits ls _); [|done]. by rewrite stored_contents.
Qed.

Lemma stored_clearAllLogs ls : stored (state_after clearAllLogs ls) = [].
Proof. by rewrite stored_contents. Qed.

Lemma fits_call c ls : fits (state_after (call c) ls) = fits ls.
Proof.
  unfold state_after. destruct c; simpl.
  - rewrite saveLog_run. cbn [snd]. by destruct (fits ls _).
  - rewrite deleteLog_run. cbn [snd]. by destruct (fits ls _).
  - done.
Qed.

Lemma call_run c ls : call c ls = (Normal tt, state_after (call c) ls).
Proof.
  unfold state_after. destruct c; simpl.
  - by rewrite saveLog_run.
  - by rewrite deleteLog_run.
  - done.
Qed.

Lemma forEach_cons {S A} (f : A → Eff.M S unit) x xs s :
  f x s = (Normal tt, state_after (f x) s) →
  state_after (forEach f (x :: xs)) s = state_after (forEach f xs) (state_after (f x) s).
Proof.
  intros H. unfold state_after at 1. simpl.
  by rewrite (bind_normal _ _ _ _ _ H).
Qed.

(** The cap is never exceeded, whatever the storage accepts. *)
Lemma call_bounded c ls :
  (length (stored ls) ≤ MAX_LOGS)%nat →
  (length (stored (state_after (call c) ls)) ≤ MAX_LOGS)%nat.
Proof.
  intros H. destruct c; cbn [call].
  - rewrite stored_saveLog. destruct (fits ls _); [|done].
    rewrite length_take. lia.
  - rewrite stored_deleteLog. destruct (fits ls _); [|done].
    etrans; [apply length_filter|done].
  - rewrite stored_clearAllLogs. simpl. lia.
Qed.

Lemma calls_bounded calls ls :
  (length (stored ls) ≤ MAX_LOGS)%nat →
  (length (stored (state_after (forEach call calls) ls)) ≤ MAX_LOGS)%nat.
Proof.
  revert ls. induction calls as [|c cs IH]; intros ls H; [done|].
  rewrite forEach_cons by apply call_run. by apply IH, call_bounded.
Qed.

Lemma take_app_take {A} n (l k : list A) :
  take n (l ++ take n k) = take n (l ++ k).
Proof. rewrite !take_app, take_take. do 2 f_equal. lia. Qed.

(** Appending a run of entries to a storage that accepts every write keeps
    the hundred most recent, newest first. *)
Lemma stored_saveLog_all entries ls :
  (∀ logs, fits ls logs = true) →
  (length (stored ls) ≤ MAX_LOGS)%nat →
  stored (state_after (forEach saveLog entries) ls)
  = take MAX_LOGS (reverse entries ++ stored ls).
Proof.
  revert ls. induction entries as [|e es IH]; intros ls Hfits Hlen.
  - unfold state_after. simpl. by rewrite take_ge.
  - rewrite forEach_cons by (rewrite saveLog_run; unfold state_after;
                             by rewrite saveLog_run).
    rewrite IH.
    + rewrite stored_saveLog, Hfits, take_app_take, reverse_cons, <- app_assoc.
      done.
    + intros logs. rewrite <- (Hfits logs).
      pose proof (fits_call (CallSaveLog e) ls) as Hf. cbn [call] in Hf.
      by rewrite Hf.
    + apply (call_bounded (CallSaveLog e)), Hlen.
Qed.

(** ** Counting *)

Lemma sum_counts_insert_fresh key n (counts : gmap string nat) :
  counts !! key = None → sum_counts (<[key := n]> counts) = n + sum_counts counts.
Proof.
  intros H. unfold sum_counts. apply (map_fold_insert_L (λ _ n acc, n + acc)); [|done].
  intros. lia.
Qed.

Lemma sum_counts_count_up key (counts : gmap string nat) :
  sum_counts (count_up key counts) = S (sum_counts counts).
Proof.
  unfold count_up. destruct (counts !! key) as [n|] eqn:Hk; simpl.
  - rewrite <- (insert_delete_id counts key n Hk) at 2.
    rewrite <- insert_delete_eq.
    rewrite !sum_counts_insert_fresh by apply lookup_delete_eq. lia.
  - by rewrite sum_counts_insert_fresh.
Qed.

Lemma sum_counts_count_ups keys (counts : gmap string nat) :
  sum_counts (foldl (λ m k, count_up k m) counts keys) = length keys + sum_counts counts.
Proof.
  revert counts. induction keys as [|k keys IH]; intros counts; [done|].
  cbn [foldl length]. rewrite IH, sum_counts_count_up. lia.
Qed.

(** On a key that names no member of [Object.prototype], [bump] counts. *)
Lemma bump_plain key (counts : gmap string nat) :
  key ∉ Object_prototype_members →
  bump key (Count <$> counts) = Count <$> count_up key counts.
Proof.
  intros Hplain. unfold bump, count_up.
  destruct (decide (key = "__proto__")) as [->|_].
  { exfalso. apply Hplain. apply (bool_decide_unpack _). by vm_compute. }
  rewrite lookup_fmap, fmap_insert.
  destruct (counts !! key) as [n|]; cbn [fmap option_fmap option_map default]; [done|].
  by rewrite decide_False.
Qed.

Lemma bumps_plain keys (counts : gmap string nat) :
  (∀ key, key ∈ keys → key ∉ Object_prototype_members) →
  foldl (λ m k, bump k m) (Count <$> counts) keys
  = Count <$> foldl (λ m k, count_up k m) counts keys.
Proof.
  revert counts. induction keys as [|k keys IH]; intros counts Hplain; [done|].
  cbn [foldl]. rewrite bump_plain by (apply Hplain; left).
  apply IH. intros key Hkey. apply Hplain. by right.
Qed.

Lemma foldl_tally_fst logs acc :
  (foldl tally acc logs).1 = foldl (λ m k, bump k m) acc.1 (map log_type logs).
Proof. revert acc. induction logs as [|l ls IH]; intros acc; [done|]. simpl. by rewrite IH. Qed.

Lemma foldl_tally_snd logs acc :
  (foldl tally acc logs).2 = foldl (λ m k, bump k m) acc.2 (map log_status logs).
Proof. revert acc. induction logs as [|l ls IH]; intros acc; [done|]. simpl. by rewrite IH. Qed.

(** [getStatistics] reads the selected logs, counts them, and writes
    nothing. *)
Lemma getStatistics_run userId ls :
  getStatistics userId ls
  = (Normal (mkStatistics (length (selected userId ls))
                          (foldl tally (∅, ∅) (selected userId ls)).1
                          (foldl tally (∅, ∅) (selected userId ls)).2),
     ls).
Proof.
  unfold getStatistics, selected. destruct (Boolean_optional userId).
  - by rewrite (bind_normal _ _ _ _ _ (readUserLogs_run (default "" userId) ls)).
  - assert (Hread : readLogs ls = (Normal (stored ls), ls))
      by (rewrite stored_contents; apply readLogs_run).
    by rewrite (bind_normal _ _ _ _ _ Hread).
Qed.

(** When no selected log has a type or a status that names a member of
    [Object.prototype], the two counter objects hold numbers only. *)
Lemma tally_plain logs :
  (∀ log, log ∈ logs → (log_status log ∉ Object_prototype_members)
                       ∧ (log_type log ∉ Object_prototype_members)) →
  (foldl tally (∅, ∅) logs).1
  = Count <$> foldl (λ m k, count_up k m) ∅ (map log_type logs)
  ∧ (foldl tally (∅, ∅) logs).2
    = Count <$> foldl (λ m k, count_up k m) ∅ (map log_status logs).
Proof.
  intros Hplain. rewrite foldl_tally_fst, foldl_tally_snd. cbn [fst snd].
  rewrite <- (fmap_empty Count).
  split; apply bumps_plain; intros key Hkey;
    apply list_elem_of_In, in_map_iff in Hkey as (log & <- & Hlog);
    apply list_elem_of_In in Hlog; by apply Hplain.
Qed.

Lemma sum_counts_empty : sum_counts ∅ = 0.
Proof. apply map_fold_empty. Qed.

(** ** The cap of the log store *)

(** C7. [saveLog] never throws. On a storage that accepts the write it
    puts the new entry in front and keeps the first [MAX_LOGS] = 100 of
    the result, in order, so a store at the cap loses its oldest entry and
    stays at 100. Saving 101 entries with distinct ids, one after the
    other, to an empty store leaves exactly the last 100, newest first,
    and the first one saved is gone. No sequence of [saveLog], [deleteLog]
    and [clearAllLogs], on any storage, takes a store of at most 100
    entries above 100. *)
Theorem saveLog_keeps_newest_100 ls :
  (∀ logs, fits ls logs = true) →
  (∀ log,
     saveLog log ls = (Normal tt, state_after (saveLog log) ls)
     ∧ stored (state_after (saveLog log) ls) = take MAX_LOGS (log :: stored ls)
     ∧ (length (stored ls) = MAX_LOGS →
        stored (state_after (saveLog log) ls) = log :: take 99 (stored ls)
        ∧ length (stored (state_after (saveLog log) ls)) = 100))
  ∧ (∀ first rest,
       stored ls = [] →
       length rest = 100 →
       NoDup (map log_id (first :: rest)) →
       stored (state_after (forEach saveLog (first :: rest)) ls) = reverse rest
       ∧ length (stored (state_after (forEach saveLog (first :: rest)) ls)) = 100
       ∧ ∀ e, e ∈ stored (state_after (forEach saveLog (first :: rest)) ls) →
              log_id e ≠ log_id first)
  ∧ (∀ ls0 calls,
       (length (stored ls0) ≤ MAX_LOGS)%nat →
       (length (stored (state_after (forEach call calls) ls0)) ≤ MAX_LOGS)%nat).
Proof.
  intros Hfits. split; [|split].
  - intros log. split; [|split].
    + unfold state_after. by rewrite saveLog_run.
    + by rewrite stored_saveLog, Hfits.
    + intros Hlen. rewrite stored_saveLog, Hfits. unfold MAX_LOGS in *.
      change (take 100 (log :: stored ls)) with (log :: take 99 (stored ls)).
      split; [done|]. simpl. rewrite length_take. lia.
  - intros first rest Hempty Hlen Hnodup.
    assert (Hall : stored (state_after (forEach saveLog (first :: rest)) ls)
                   = reverse rest).
    { rewrite stored_saveLog_all by (rewrite ?Hempty; simpl; unfold MAX_LOGS; done || lia).
      rewrite Hempty, app_nil_r, reverse_cons.
      rewrite take_app_le by (rewrite length_reverse; unfold MAX_LOGS; lia).
      apply take_ge. rewrite length_reverse. unfold MAX_LOGS. lia. }
    rewrite Hall. split; [done|]. split; [by rewrite length_reverse|].
    intros e He Heq. rewrite elem_of_reverse in He.
    change (map log_id (first :: rest)) with (log_id first :: map log_id rest) in Hnodup.
    apply NoDup_cons in Hnodup as [Hnotin _]. apply Hnotin.
    rewrite <- Heq. apply list_elem_of_In, in_map. by apply list_elem_of_In.
  - intros ls0 calls. apply calls_bounded.
Qed.

Lemma saveLog_keeps_newest_100_witness :
  (∀ logs, fits Sample.empty_storage logs = true)
  ∧ stored Sample.empty_storage = []
  ∧ length (Sample.entries 101) = 101
  ∧ NoDup (map log_id (Sample.entries 101))
  ∧ length (stored (state_after (forEach saveLog (Sample.entries 101))
                                Sample.empty_storage)) = 100
  ∧ ∀ e, e ∈ stored (state_after (forEach saveLog (Sample.entries 101))
                                 Sample.empty_storage) →
         log_id e ≠ "1".
Proof.
  split; [reflexivity|]. split; [reflexivity|]. split; [reflexivity|].
  assert (Hnodup : NoDup (map log_id (Sample.entries 101))).
  { apply (bool_decide_unpack _). vm_compute. exact I. }
  split; [exact Hnodup|].
  destruct (saveLog_keeps_newest_100 Sample.empty_storage (λ _, eq_refl))
    as (_ & Hscenario & _).
  destruct (Hscenario (Sample.entry "1" "user-1" "pending")
                      (map (λ i, Sample.entry (pretty i) "user-1" "pending") (seq 2 100))
                      eq_refl eq_refl Hnodup)
    as (_ & Hlen & Habsent).
  split; [exact Hlen | exact Habsent].
Defined.

(** ** Deleting a log *)

Lemma filter_none_matching logId (logs : list EmergencyLog) :
  (∀ log, log ∈ logs → log_id log ≠ logId) →
  filter (λ log, log_id log ≠ logId) logs = logs.
Proof.
  intros H. induction logs as [|l ls IH]; [done|].
  rewrite filter_cons_True by (apply H; left).
  rewrite IH; [done|]. intros log Hlog. apply H. by right.
Qed.

(** C8. [deleteLog] returns without error on every storage. With an id
    that matches no stored entry the stored collection is unchanged, same
    entries in the same order. When the write is accepted, what is left is
    the entries with another id, in their order; so when one entry matches,
    that entry is gone and the entries before and after it follow each
    other as before. *)
Theorem deleteLog_removes_matching logId ls :
  deleteLog logId ls = (Normal tt, state_after (deleteLog logId) ls)
  ∧ ((∀ log, log ∈ stored ls → log_id log ≠ logId) →
     stored (state_after (deleteLog logId) ls) = stored ls)
  ∧ (fits ls (filter (λ log, log_id log ≠ logId) (stored ls)) = true →
     stored (state_after (deleteLog logId) ls)
     = filter (λ log, log_id log ≠ logId) (stored ls)
     ∧ ∀ before e after,
         stored ls = (before ++ e :: after)%list →
         log_id e = logId →
         (∀ log, log ∈ (before ++ after)%list → log_id log ≠ logId) →
         stored (state_after (deleteLog logId) ls) = (before ++ after)%list).
Proof.
  split; [|split].
  - unfold state_after. by rewrite deleteLog_run.
  - intros Habsent. rewrite stored_deleteLog, (filter_none_matching _ _ Habsent).
    by destruct (fits ls _).
  - intros Hfits. rewrite stored_deleteLog, Hfits. split; [done|].
    intros before e after -> He Hothers.
    rewrite filter_app, filter_cons_False by (intros Hne; by apply Hne).
    rewrite <- filter_app. by apply filter_none_matching.
Qed.

Lemma deleteLog_removes_matching_witness :
  fits (Sample.storage_with (Sample.entries 3))
       (filter (λ log, log_id log ≠ "2") (stored (Sample.storage_with (Sample.entries 3))))
  = true
  ∧ stored (Sample.storage_with (Sample.entries 3))
    = ([Sample.entry "1" "user-1" "pending"]
       ++ Sample.entry "2" "user-1" "pending" :: [Sample.entry "3" "user-1" "pending"])%list
  ∧ stored (state_after (deleteLog "2") (Sample.storage_with (Sample.entries 3)))
    = [Sample.entry "1" "user-1" "pending"; Sample.entry "3" "user-1" "pending"].
Proof.
  split; [reflexivity|]. split; [reflexivity|].
  destruct (deleteLog_removes_matching "2" (Sample.storage_with (Sample.entries 3)))
    as (_ & _ & Hpresent).
  destruct (Hpresent eq_refl) as [_ Hone].
  apply (Hone [Sample.entry "1" "user-1" "pending"]
              (Sample.entry "2" "user-1" "pending")
              [Sample.entry "3" "user-1" "pending"]); [reflexivity..|].
  intros log Hlog. apply (bool_decide_unpack _).
  apply list_elem_of_In in Hlog. simpl in Hlog.
  destruct Hlog as [<-|[<-|[]]]; vm_compute; exact I.
Defined.

(** ** Statistics *)

(** X31. What [getStatistics] gives when no selected log has a type or
    status that names a member of [Object.prototype]: it never throws and leaves
    the storage as it is; its answer depends on the stored logs only;
    [total] is the number of stored logs when no user id or the empty
    string is given, and the number of logs [readUserLogs] gives for a
    non-empty user id; [byStatus] and [byType] hold numbers only, and
    these add up to [total]. *)
Theorem getStatistics_sums_plain_keys userId ls :
  (∀ log, log ∈ selected userId ls →
          (log_status log ∉ Object_prototype_members)
          ∧ (log_type log ∉ Object_prototype_members)) →
  ∃ stats statuses types,
    getStatistics userId ls = (Normal stats, ls)
    ∧ (userId = None ∨ userId = Some "" → total stats = length (stored ls))
    ∧ (∀ u, userId = Some u → u ≠ "" →
            ∃ logs, readUserLogs u ls = (Normal logs, ls)
                    ∧ total stats = length logs)
    ∧ byStatus stats = Count <$> statuses
    ∧ sum_counts statuses = total stats
    ∧ byType stats = Count <$> types
    ∧ sum_counts types = total stats
    ∧ ∀ ls', stored ls' = stored ls →
             answer (getStatistics userId) ls' = Normal stats.
Proof.
  intros Hplain. destruct (tally_plain _ Hplain) as [Htypes Hstatuses].
  eexists _, _, _. split; [apply getStatistics_run|]. cbn [total byStatus byType].
  split; [|split; [|split; [|split; [|split; [|split]]]]].
  - unfold selected. intros [-> | ->]; done.
  - intros u -> Hne. eexists. split; [apply readUserLogs_run|].
    unfold selected. cbn [Boolean_optional default].
    apply Boolean_string_spec in Hne. by rewrite Hne.
  - exact Hstatuses.
  - rewrite sum_counts_count_ups, length_map, sum_counts_empty. lia.
  - exact Htypes.
  - rewrite sum_counts_count_ups, length_map, sum_counts_empty. lia.
  - intros ls' Hsame. unfold answer. rewrite getStatistics_run. cbn [fst].
    unfold selected. by rewrite Hsame.
Qed.

Lemma getStatistics_sums_plain_keys_witness :
  (∀ log, log ∈ selected (Some "user-1")
                  (Sample.storage_with (Sample.pair_with_status "pending")) →
          (log_status log ∉ Object_prototype_members)
          ∧ (log_type log ∉ Object_prototype_members))
  ∧ ∃ stats statuses types,
      getStatistics (Some "user-1")
                    (Sample.storage_with (Sample.pair_with_status "pending"))
      = (Normal stats, Sample.storage_with (Sample.pair_with_status "pending"))
      ∧ (Some "user-1" = None ∨ Some "user-1" = Some "" →
         total stats
         = length (stored (Sample.storage_with (Sample.pair_with_status "pending"))))
      ∧ (∀ u, Some "user-1" = Some u → u ≠ "" →
              ∃ logs,
                readUserLogs u (Sample.storage_with (Sample.pair_with_status "pending"))
                = (Normal logs, Sample.storage_with (Sample.pair_with_status "pending"))
                ∧ total stats = length logs)
      ∧ byStatus stats = Count <$> statuses
      ∧ sum_counts statuses = total stats
      ∧ byType stats = Count <$> types
      ∧ sum_counts types = total stats
      ∧ ∀ ls', stored ls'
               = stored (Sample.storage_with (Sample.pair_with_status "pending")) →
               answer (getStatistics (Some "user-1")) ls' = Normal stats.
Proof.
  assert (Hplain : ∀ log,
            log ∈ selected (Some "user-1")
                    (Sample.storage_with (Sample.pair_with_status "pending")) →
            (log_status log ∉ Object_prototype_members)
            ∧ (log_type log ∉ Object_prototype_members)).
  { intros log Hlog.
    change (selected (Some "user-1")
              (Sample.storage_with (Sample.pair_with_status "pending")))
      with (Sample.pair_with_status "pending") in Hlog.
    apply list_elem_of_In in Hlog. simpl in Hlog.
    destruct Hlog as [<-|[<-|[]]]; split; apply (bool_decide_unpack _);
      vm_compute; exact I. }
  split; [exact Hplain|].
  apply (getStatistics_sums_plain_keys (Some "user-1")
           (Sample.storage_with (Sample.pair_with_status "pending")) Hplain).
Defined.

(** C9, where the code departs from it. The counter objects are made by
    [{}], and a status that names a member of [Object.prototype] is not
    counted: with two stored logs of status "__proto__", [getStatistics]
    gives [total] 2 and a [byStatus] with no entry at all, so the counts
    of [byStatus] do not add up to [total]; with two stored logs of status
    "constructor" the entry of [byStatus] is a string, not a number. In
    both cases [total] is the number of stored logs. *)
Theorem getStatistics_inherited_keys :
  (∃ stats,
     getStatistics None (Sample.storage_with (Sample.pair_with_status "__proto__"))
     = (Normal stats, Sample.storage_with (Sample.pair_with_status "__proto__"))
     ∧ length (stored (Sample.storage_with (Sample.pair_with_status "__proto__"))) = 2
     ∧ total stats = 2
     ∧ byStatus stats = ∅
     ∧ ∀ statuses, byStatus stats = Count <$> statuses → sum_counts statuses ≠ total stats)
  ∧ (∃ stats,
       getStatistics None (Sample.storage_with (Sample.pair_with_status "constructor"))
       = (Normal stats, Sample.storage_with (Sample.pair_with_status "constructor"))
       ∧ total stats = 2
       ∧ byStatus stats !! "constructor" = Some (MemberText "constructor" 2)
       ∧ ∀ statuses, byStatus stats ≠ Count <$> statuses).
Proof.
  split.
  - eexists. split; [apply getStatistics_run|]. cbn [total byStatus].
    split; [reflexivity|]. split; [reflexivity|].
    assert (Hempty : (foldl tally (∅, ∅)
                        (selected None (Sample.storage_with
                                          (Sample.pair_with_status "__proto__")))).2 = ∅)
      by reflexivity.
    split; [exact Hempty|]. rewrite Hempty. intros statuses Hnone.
    symmetry in Hnone. apply fmap_empty_inv in Hnone as ->.
    rewrite sum_counts_empty. discriminate.
  - eexists. split; [apply getStatistics_run|]. cbn [total byStatus].
    split; [reflexivity|].
    assert (Htext : (foldl tally (∅, ∅)
                       (selected None (Sample.storage_with
                                         (Sample.pair_with_status "constructor")))).2
                    !! "constructor" = Some (MemberText "constructor" 2))
      by (vm_compute; reflexivity).
    split; [exact Htext|]. intros statuses Hall. rewrite Hall, lookup_fmap in Htext.
    destruct (statuses !! "constructor"); discriminate.
Qed.

(** ** Worked examples *)

(** The scenario of a medical alert with one contact who has a phone and an
    empty email: SMS, Authority and Push entries, all successful, and the
    alert handed in still pending. *)
Example notifyAll_medical_with_phone :
  let run := notifyAll Sample.runtime Sample.backend_up 0
                       [Sample.contact_with_phone] (Sample.world pending) in
  run.1
  = Normal (mkNotifyResult true
              [mkResultEntry "SMS" true "SMS alerts sent to 1 contacts";
               mkResultEntry "Authority" true "911 Medical has been notified";
               mkResultEntry "Push" true "Push notifications sent to 2 devices"])
  ∧ _status <$> heap run.2 !! 0 = Some pending.
Proof. split; reflexivity. Qed.

(** With the backend down the Authority entry is a failure, the Push entry
    is still there, and the overall flag is false. *)
Example notifyAll_backend_down :
  answer (notifyAll Sample.runtime Sample.backend_down 0 []) (Sample.world pending)
  = Normal (mkNotifyResult false
              [mkResultEntry "Authority" false "Failed to notify authorities";
               mkResultEntry "Push" true "Push notifications sent to 2 devices"]).
Proof. reflexivity. Qed.

(** A storage that refuses the write: [saveLog] swallows the exception and
    the stored logs stay as they were. *)
Example saveLog_on_full_storage :
  saveLog (Sample.entry "9" "user-1" "pending") (Sample.full_storage (Sample.entries 2))
  = (Normal tt, Sample.full_storage (Sample.entries 2)).
Proof. reflexivity. Qed.

(** Text that does not parse reads as no logs, and the next save starts
    the list afresh. *)
Example saveLog_over_malformed_text :
  stored (mkLocalStorage (Some (Malformed "{oops")) (λ _, true)) = []
  ∧ stored (state_after (saveLog (Sample.entry "9" "user-1" "pending"))
                        (mkLocalStorage (Some (Malformed "{oops")) (λ _, true)))
    = [Sample.entry "9" "user-1" "pending"].
Proof. split; reflexivity. Qed.

(** Two logs of one user and one of another. *)
Example getStatistics_by_user :
  let ls := Sample.storage_with
              [Sample.entry "1" "user-1" "pending";
               Sample.entry "2" "user-2" "acknowledged";
               Sample.entry "3" "user-1" "acknowledged"] in
  ∃ all mine,
    answer (getStatistics None) ls = Normal all
    ∧ answer (getStatistics (Some "user-1")) ls = Normal mine
    ∧ total all = 3 ∧ total mine = 2
    ∧ byStatus all !! "acknowledged" = Some (Count 2)
    ∧ byStatus mine !! "pending" = Some (Count 1).
Proof. eexists _, _. repeat split; vm_compute; reflexivity. Qed.

(** * Further properties of the file handler *)

Lemma state_after_bind {S A B} (m : Eff.M S A) (k : A → Eff.M S B) s a :
  m s = (Normal a, state_after m s) →
  state_after (m ≫= k) s = state_after (k a) (state_after m s).
Proof. intros H. unfold state_after at 1. by rewrite (bind_normal _ _ _ _ _ H). Qed.

Lemma saveLog_normal log ls : saveLog log ls = (Normal tt, state_after (saveLog log) ls).
Proof. apply (call_run (CallSaveLog log)). Qed.

Lemma deleteLog_normal logId ls :
  deleteLog logId ls = (Normal tt, state_after (deleteLog logId) ls).
Proof. apply (call_run (CallDeleteLog logId)). Qed.

(** X1. [readLogs] never throws and never writes: a missing item and a
    text that does not parse both read as the empty list, and a stored
    array reads as itself. *)
Theorem readLogs_reads_only ls :
  ∃ logs,
    readLogs ls = (Normal logs, ls)
    ∧ (emergency_logs ls = None → logs = [])
    ∧ (∀ text, emergency_logs ls = Some (Malformed text) → logs = [])
    ∧ (∀ saved, emergency_logs ls = Some (Json saved) → logs = saved).
Proof.
  exists (contents ls). split; [apply readLogs_run|]. unfold contents.
  split; [by intros ->|]. split; [by intros text ->|by intros saved ->].
Qed.

(** X2. [clearAllLogs] never throws and empties the store on every
    storage, one that refuses writes or holds unparsable text included:
    afterwards there are no logs for any user and the statistics are zero
    with no keys. *)
Theorem clearAllLogs_empties ls :
  ∃ ls',
    clearAllLogs ls = (Normal tt, ls')
    ∧ readLogs ls' = (Normal [], ls')
    ∧ (∀ userId, readUserLogs userId ls' = (Normal [], ls'))
    ∧ (∀ userId, getStatistics userId ls' = (Normal (mkStatistics 0 ∅ ∅), ls')).
Proof.
  eexists. split; [apply clearAllLogs_run|].
  split; [done|]. split; [done|].
  intros userId. unfold getStatistics.
  destruct (Boolean_optional userId); reflexivity.
Qed.

(** X3. [readUserLogs] never throws and never writes; it gives exactly
    the stored logs whose [userId] is the one asked for, each as often as
    it is stored and in the order they are stored: what it returns is the
    stored list with the logs of other users struck out. *)
Theorem readUserLogs_selects userId ls :
  ∃ logs,
    readUserLogs userId ls = (Normal logs, ls)
    ∧ logs = filter (λ log, log_userId log = userId) (stored ls)
    ∧ logs `sublist_of` stored ls
    ∧ (∀ log, log ∈ logs ↔ log ∈ stored ls ∧ log_userId log = userId).
Proof.
  eexists. split; [apply readUserLogs_run|]. split; [done|].
  split; [apply sublist_filter|].
  intros log. rewrite list_elem_of_filter. tauto.
Qed.

(** X4. Saving a log under a new id and deleting that id again, on a
    storage that accepts the writes, gives back the store as it was as
    long as the store was below the cap; a store at the cap comes back
    without its oldest entry. *)
Theorem saveLog_then_deleteLog log ls :
  (∀ logs, fits ls logs = true) →
  (∀ e, e ∈ stored ls → log_id e ≠ log_id log) →
  stored (state_after (saveLog log;; deleteLog (log_id log)) ls) = take 99 (stored ls)
  ∧ (length (stored ls) < MAX_LOGS →
     stored (state_after (saveLog log;; deleteLog (log_id log)) ls) = stored ls).
Proof.
  intros Hfits Hnew.
  assert (Hgoal : stored (state_after (saveLog log;; deleteLog (log_id log)) ls)
                  = take 99 (stored ls)).
  { rewrite (state_after_bind _ _ ls tt) by apply saveLog_normal.
    rewrite stored_deleteLog.
    pose proof (fits_call (CallSaveLog log) ls) as Hf. cbn [call] in Hf.
    rewrite Hf, Hfits, stored_saveLog, Hfits.
    change (take MAX_LOGS (log :: stored ls)) with (log :: take 99 (stored ls)).
    rewrite filter_cons_False by (intros Hne; by apply Hne).
    apply filter_none_matching. intros e He. apply Hnew.
    by apply (subseteq_take 99 (stored ls)). }
  split; [done|]. intros Hlen. rewrite Hgoal. apply take_ge.
  unfold MAX_LOGS in Hlen. lia.
Qed.

Lemma saveLog_then_deleteLog_witness :
  (∀ logs, fits (Sample.storage_with (Sample.entries 2)) logs = true)
  ∧ stored (state_after (saveLog (Sample.entry "9" "user-1" "pending");; deleteLog "9")
                        (Sample.storage_with (Sample.entries 2)))
    = stored (Sample.storage_with (Sample.entries 2)).
Proof.
  split; [reflexivity|].
  apply (saveLog_then_deleteLog (Sample.entry "9" "user-1" "pending")
           (Sample.storage_with (Sample.entries 2))).
  - reflexivity.
  - intros e He. apply (bool_decide_unpack _).
    apply list_elem_of_In in He. simpl in He.
    destruct He as [<-|[<-|[]]]; vm_compute; exact I.
  - vm_compute. lia.
Defined.

(** X5. Deleting the same id twice leaves the storage exactly as deleting
    it once does, whether or not the storage accepts the write. *)
Theorem deleteLog_idempotent logId ls :
  state_after (deleteLog logId) (state_after (deleteLog logId) ls)
  = state_after (deleteLog logId) ls.
Proof.
  unfold state_after at 2 3. rewrite deleteLog_run. cbn [snd].
  destruct (fits ls (filter (λ log, log_id log ≠ logId) (stored ls))) eqn:Hfit.
  - unfold state_after. rewrite deleteLog_run. cbn [snd fits].
    rewrite stored_contents. unfold contents. cbn [emergency_logs].
    rewrite list_filter_filter.
    rewrite (list_filter_iff _ (λ log, log_id log ≠ logId)) by tauto.
    by rewrite Hfit.
  - unfold state_after. rewrite deleteLog_run. cbn [snd]. by rewrite Hfit.
Qed.

Lemma lookup_count_up key key' (counts : gmap string nat) :
  count_up key counts !! key'
  = if decide (key = key') then Some (default 0 (counts !! key) + 1) else counts !! key'.
Proof. unfold count_up. apply lookup_insert. Qed.

(** Folding [count_up] over a list of keys counts the occurrences of each
    key, on top of what the map held. *)
Lemma lookup_count_ups (keys : list string) (counts : gmap string nat) key :
  (∀ k, counts !! k ≠ Some 0) →
  (∀ k, foldl (λ m k, count_up k m) counts keys !! k ≠ Some 0)
  ∧ default 0 (foldl (λ m k, count_up k m) counts keys !! key)
    = length (filter (λ k, k = key) keys) + default 0 (counts !! key).
Proof.
  revert counts. induction keys as [|k0 keys IH]; intros counts Hpos; [done|].
  cbn [foldl].
  destruct (IH (count_up k0 counts)) as [Hpos' Hcount].
  { intros k. rewrite lookup_count_up. case_decide; [|apply Hpos].
    intros [= Hzero]. lia. }
  split; [done|]. rewrite Hcount, lookup_count_up.
  destruct (decide (k0 = key)) as [->|Hne].
  - rewrite filter_cons_True by done. simpl. lia.
  - by rewrite filter_cons_False.
Qed.

Lemma length_filter_map {A} (f : A → string) key (l : list A) :
  length (filter (λ k, k = key) (map f l)) = length (filter (λ x, f x = key) l).
Proof.
  induction l as [|x l IH]; [done|]. cbn [map].
  destruct (decide (f x = key)) as [He|Hne].
  - rewrite !filter_cons_True by done. simpl. by rewrite IH.
  - by rewrite !filter_cons_False.
Qed.

Lemma counter_lookup (m : gmap string nat) key n :
  m !! key ≠ Some 0 → default 0 (m !! key) = n →
  Count <$> m !! key = if decide (n = 0) then None else Some (Count n).
Proof.
  intros Hpos Hn. destruct (m !! key) as [c|]; simpl in Hn; subst.
  - case_decide; [by subst|done].
  - done.
Qed.

(** X6. When no selected log has a type or a status that names a member
    of [Object.prototype], the entry of [byStatus] under a status is the
    number of selected logs with that status, and a status no selected log
    has is not a key; the same holds for [byType] and the types. The
    selected logs are those of the user when a non-empty user id is given,
    all stored logs otherwise. *)
Theorem getStatistics_counts_per_key userId ls :
  (∀ log, log ∈ selected userId ls →
          (log_status log ∉ Object_prototype_members)
          ∧ (log_type log ∉ Object_prototype_members)) →
  ∃ stats,
    getStatistics userId ls = (Normal stats, ls)
    ∧ let logs := if Boolean_optional userId
                  then filter (λ log, log_userId log = default "" userId) (stored ls)
                  else stored ls in
      ∀ key,
        byStatus stats !! key
        = (let n := length (filter (λ log, log_status log = key) logs) in
           if decide (n = 0) then None else Some (Count n))
        ∧ byType stats !! key
          = (let n := length (filter (λ log, log_type log = key) logs) in
             if decide (n = 0) then None else Some (Count n)).
Proof.
  intros Hplain. destruct (tally_plain _ Hplain) as [Htypes Hstatuses].
  eexists. split; [apply getStatistics_run|]. cbn [byStatus byType].
  fold (selected userId ls). intros key. rewrite Htypes, Hstatuses, !lookup_fmap.
  assert (Hempty : ∀ k : string, (∅ : gmap string nat) !! k ≠ Some 0) by done.
  destruct (lookup_count_ups (map log_status (selected userId ls)) ∅ key Hempty)
    as [Hp1 Hc1].
  destruct (lookup_count_ups (map log_type (selected userId ls)) ∅ key Hempty)
    as [Hp2 Hc2].
  rewrite lookup_empty in Hc1, Hc2. simpl in Hc1, Hc2.
  rewrite length_filter_map, Nat.add_0_r in Hc1, Hc2.
  split; apply counter_lookup; auto.
Qed.

Lemma getStatistics_counts_per_key_witness :
  (∀ log, log ∈ selected None (Sample.storage_with (Sample.pair_with_status "pending")) →
          (log_status log ∉ Object_prototype_members)
          ∧ (log_type log ∉ Object_prototype_members))
  ∧ ∃ stats,
      getStatistics None (Sample.storage_with (Sample.pair_with_status "pending"))
      = (Normal stats, Sample.storage_with (Sample.pair_with_status "pending"))
      ∧ let logs := if Boolean_optional None
                    then filter (λ log, log_userId log = default "" None)
                                (stored (Sample.storage_with
                                           (Sample.pair_with_status "pending")))
                    else stored (Sample.storage_with (Sample.pair_with_status "pending")) in
        ∀ key,
          byStatus stats !! key
          = (let n := length (filter (λ log, log_status log = key) logs) in
             if decide (n = 0) then None else Some (Count n))
          ∧ byType stats !! key
            = (let n := length (filter (λ log, log_type log = key) logs) in
               if decide (n = 0) then None else Some (Count n)).
Proof.
  assert (Hplain : ∀ log,
            log ∈ selected None (Sample.storage_with (Sample.pair_with_status "pending")) →
            (log_status log ∉ Object_prototype_members)
            ∧ (log_type log ∉ Object_prototype_members)).
  { intros log Hlog.
    change (selected None (Sample.storage_with (Sample.pair_with_status "pending")))
      with (Sample.pair_with_status "pending") in Hlog.
    apply list_elem_of_In in Hlog. simpl in Hlog.
    destruct Hlog as [<-|[<-|[]]]; split; apply (bool_decide_unpack _);
      vm_compute; exact I. }
  split; [exact Hplain|].
  apply (getStatistics_counts_per_key None
           (Sample.storage_with (Sample.pair_with_status "pending")) Hplain).
Defined.

(** X8. Text that does not parse is not repaired but replaced: on such a
    storage the first accepted [saveLog] leaves just the saved log, and the
    first accepted [deleteLog], whatever the id, leaves an empty array. *)
Theorem malformed_text_is_replaced text ls :
  emergency_logs ls = Some (Malformed text) →
  (∀ log, fits ls [log] = true →
          emergency_logs (state_after (saveLog log) ls) = Some (Json [log]))
  ∧ (∀ logId, fits ls [] = true →
              emergency_logs (state_after (deleteLog logId) ls) = Some (Json [])).
Proof.
  intros Hbad.
  assert (Hstored : stored ls = []) by (rewrite stored_contents; unfold contents; by rewrite Hbad).
  split.
  - intros log Hfit. unfold state_after. rewrite saveLog_run, Hstored. cbn [snd].
    change (take MAX_LOGS [log]) with [log]. by rewrite Hfit.
  - intros logId Hfit. unfold state_after. rewrite deleteLog_run, Hstored. cbn [snd].
    rewrite filter_nil. by rewrite Hfit.
Qed.

Lemma malformed_text_is_replaced_witness :
  emergency_logs (mkLocalStorage (Some (Malformed "{oops")) (λ _, true))
  = Some (Malformed "{oops")
  ∧ (∀ log, fits (mkLocalStorage (Some (Malformed "{oops")) (λ _, true)) [log] = true →
            emergency_logs (state_after (saveLog log)
                              (mkLocalStorage (Some (Malformed "{oops")) (λ _, true)))
            = Some (Json [log]))
  ∧ (∀ logId, fits (mkLocalStorage (Some (Malformed "{oops")) (λ _, true)) [] = true →
              emergency_logs (state_after (deleteLog logId)
                                (mkLocalStorage (Some (Malformed "{oops")) (λ _, true)))
              = Some (Json [])).
Proof.
  split; [reflexivity|].
  apply (malformed_text_is_replaced "{oops"
           (mkLocalStorage (Some (Malformed "{oops")) (λ _, true))).
  reflexivity.
Defined.

(** X9. A storage that refuses a write loses the log without a sign:
    [saveLog] and [deleteLog] still return normally and the storage is
    exactly as before, so the log just saved is not among the logs read
    back unless it was stored already. *)
Theorem refused_write_is_silent ls :
  (∀ logs, fits ls logs = false) →
  (∀ log, saveLog log ls = (Normal tt, ls))
  ∧ (∀ logId, deleteLog logId ls = (Normal tt, ls))
  ∧ (∀ log, log ∉ stored ls → log ∉ stored (state_after (saveLog log) ls)).
Proof.
  intros Hfull. split; [|split].
  - intros log. by rewrite saveLog_run, Hfull.
  - intros logId. by rewrite deleteLog_run, Hfull.
  - intros log Hnot. unfold state_after. by rewrite saveLog_run, Hfull.
Qed.

Lemma refused_write_is_silent_witness :
  (∀ logs, fits (Sample.full_storage (Sample.entries 2)) logs = false)
  ∧ (∀ log, saveLog log (Sample.full_storage (Sample.entries 2))
            = (Normal tt, Sample.full_storage (Sample.entries 2)))
  ∧ (∀ logId, deleteLog logId (Sample.full_storage (Sample.entries 2))
              = (Normal tt, Sample.full_storage (Sample.entries 2)))
  ∧ (∀ log, log ∉ stored (Sample.full_storage (Sample.entries 2)) →
            log ∉ stored (state_after (saveLog log)
                                      (Sample.full_storage (Sample.entries 2)))).
Proof.
  split; [reflexivity|].
  apply (refused_write_is_silent (Sample.full_storage (Sample.entries 2))).
  reflexivity.
Defined.

(** X10. Below the cap nothing is lost: saving a run of logs that fits
    under [MAX_LOGS] together with what is stored, on a storage that
    accepts the writes, leaves the run in reverse order of saving in front
    of the logs stored before. *)
Theorem saveLog_all_below_cap entries ls :
  (∀ logs, fits ls logs = true) →
  (length entries + length (stored ls) ≤ MAX_LOGS)%nat →
  stored (state_after (forEach saveLog entries) ls) = (reverse entries ++ stored ls)%list.
Proof.
  intros Hfits Hlen. rewrite stored_saveLog_all by (done || lia).
  apply take_ge. rewrite length_app, length_reverse. lia.
Qed.

Lemma saveLog_all_below_cap_witness :
  (∀ logs, fits (Sample.storage_with (Sample.entries 2)) logs = true)
  ∧ (length [Sample.entry "8" "user-2" "pending"; Sample.entry "9" "user-1" "pending"]
    + length (stored (Sample.storage_with (Sample.entries 2))) ≤ MAX_LOGS)%nat
  ∧ stored (state_after (forEach saveLog [Sample.entry "8" "user-2" "pending";
                                          Sample.entry "9" "user-1" "pending"])
                        (Sample.storage_with (Sample.entries 2)))
    = (reverse [Sample.entry "8" "user-2" "pending"; Sample.entry "9" "user-1" "pending"]
       ++ stored (Sample.storage_with (Sample.entries 2)))%list.
Proof.
  split; [reflexivity|].
  assert (Hlen : (length [Sample.entry "8" "user-2" "pending";
                          Sample.entry "9" "user-1" "pending"]
                  + length (stored (Sample.storage_with (Sample.entries 2))) ≤ MAX_LOGS)%nat)
    by (vm_compute; lia).
  split; [exact Hlen|].
  apply (saveLog_all_below_cap
           [Sample.entry "8" "user-2" "pending"; Sample.entry "9" "user-1" "pending"]
           (Sample.storage_with (Sample.entries 2))); [reflexivity|exact Hlen].
Defined.

(** X11. After an accepted [saveLog] on a store below the cap, the logs
    of the saved log's user are the saved log followed by that user's
    earlier logs, and the logs of every other user are as before. *)
Theorem readUserLogs_after_saveLog log ls userId :
  fits ls (take MAX_LOGS (log :: stored ls)) = true →
  length (stored ls) < MAX_LOGS →
  ∃ before after,
    readUserLogs userId ls = (Normal before, ls)
    ∧ readUserLogs userId (state_after (saveLog log) ls)
      = (Normal after, state_after (saveLog log) ls)
    ∧ after = if decide (log_userId log = userId) then log :: before else before.
Proof.
  intros Hfit Hlen. eexists _, _. split; [apply readUserLogs_run|].
  split; [apply readUserLogs_run|].
  rewrite stored_saveLog, Hfit.
  rewrite take_ge by (simpl; unfold MAX_LOGS in *; lia).
  rewrite filter_cons. by destruct (decide (log_userId log = userId)).
Qed.

Lemma readUserLogs_after_saveLog_witness :
  fits Sample.empty_storage
       (take MAX_LOGS (Sample.entry "1" "user-1" "pending" :: stored Sample.empty_storage))
  = true
  ∧ length (stored Sample.empty_storage) < MAX_LOGS
  ∧ ∃ before after,
      readUserLogs "user-1" Sample.empty_storage = (Normal before, Sample.empty_storage)
      ∧ readUserLogs "user-1"
          (state_after (saveLog (Sample.entry "1" "user-1" "pending")) Sample.empty_storage)
        = (Normal after,
           state_after (saveLog (Sample.entry "1" "user-1" "pending")) Sample.empty_storage)
      ∧ after = if decide (log_userId (Sample.entry "1" "user-1" "pending") = "user-1")
                then Sample.entry "1" "user-1" "pending" :: before else before.
Proof.
  split; [reflexivity|].
  assert (Hlen : length (stored Sample.empty_storage) < MAX_LOGS) by (vm_compute; lia).
  split; [exact Hlen|].
  apply (readUserLogs_after_saveLog (Sample.entry "1" "user-1" "pending")
           Sample.empty_storage "user-1"); [reflexivity|exact Hlen].
Defined.

(** * Further properties of the alert classes *)

(** X12. The two setters of [Alert] change one field of the receiver and
    nothing else: message and status can be set in either order with the
    same result, and every other object is untouched. *)
Theorem setters_touch_one_field this msg st w a :
  heap w !! this = Some a →
  ∃ w',
    (set_message this msg;; set_status this st) w = (Normal tt, w')
    ∧ (set_status this st;; set_message this msg) w = (Normal tt, w')
    ∧ heap w' !! this
      = Some (mkAlert (_id a) (_userId a) (_type a) msg st (_timestamp a)
                      (_location a) (_locationAddress a) (subclass a))
    ∧ ∀ l, l ≠ this → heap w' !! l = heap w !! l.
Proof.
  intros H.
  exists (mkWorld (<[this := with_status st (with_message msg a)]> (heap w))
                  (console w) (uuids_drawn w)).
  assert (Hmsg : set_message this msg w
                 = (Normal tt, mkWorld (<[this := with_message msg a]> (heap w))
                                       (console w) (uuids_drawn w))).
  { unfold set_message. by rewrite (deref_run _ _ _ a). }
  split; [|split; [|split]].
  - rewrite (bind_normal _ _ _ _ _ Hmsg).
    rewrite (set_status_run _ _ _ (with_message msg a)) by apply lookup_insert_eq.
    cbn [heap console uuids_drawn]. by rewrite insert_insert_eq.
  - rewrite (bind_normal _ _ _ _ _ (set_status_run this st w a H)).
    unfold set_message.
    rewrite (deref_run _ _ _ (with_status st a)) by apply lookup_insert_eq.
    unfold store, Eff.modify. cbn [heap console uuids_drawn].
    by rewrite insert_insert_eq.
  - cbn [heap]. by rewrite lookup_insert_eq.
  - intros l Hne. cbn [heap]. by rewrite lookup_insert_ne.
Qed.

Lemma setters_touch_one_field_witness :
  heap (Sample.world pending) !! 0 = Some (Sample.the_alert pending)
  ∧ ∃ w',
      (set_message 0 "help";; set_status 0 resolved) (Sample.world pending)
      = (Normal tt, w')
      ∧ (set_status 0 resolved;; set_message 0 "help") (Sample.world pending)
        = (Normal tt, w')
      ∧ heap w' !! 0
        = Some (mkAlert (_id (Sample.the_alert pending))
                        (_userId (Sample.the_alert pending))
                        (_type (Sample.the_alert pending)) "help" resolved
                        (_timestamp (Sample.the_alert pending))
                        (_location (Sample.the_alert pending))
                        (_locationAddress (Sample.the_alert pending))
                        (subclass (Sample.the_alert pending)))
      ∧ ∀ l, l ≠ 0 → heap w' !! l = heap (Sample.world pending) !! l.
Proof.
  split; [reflexivity|].
  apply (setters_touch_one_field 0 "help" resolved (Sample.world pending)
           (Sample.the_alert pending)).
  reflexivity.
Defined.

(** X13. [sendAlert] writes the status of its receiver from the outcome
    alone: [acknowledged] after a success and [pending] after a failure,
    whatever the status was, so a resolved alert sent again is no longer
    resolved. The other fields of the receiver and all other objects are
    untouched. *)
Theorem sendAlert_sets_own_status supabase this a w :
  heap w !! this = Some a →
  ∃ r w',
    sendAlert supabase this w = (Normal r, w')
    ∧ heap w' !! this
      = Some (with_status (if success r then acknowledged else pending) a)
    ∧ get_status this w' = (Normal (if success r then acknowledged else pending), w')
    ∧ ∀ l, l ≠ this → heap w' !! l = heap w !! l.
Proof.
  intros H. eexists _, _. split; [by apply sendAlert_run|].
  assert (Hthis : ∀ x, <[this := x]> (heap w) !! this = Some x)
    by (intros; apply lookup_insert_eq).
  split; [apply Hthis|]. split.
  - erewrite get_status_run; [|cbn [heap]; apply Hthis]. done.
  - intros l Hne. cbn [heap]. by rewrite lookup_insert_ne.
Qed.

Lemma sendAlert_sets_own_status_witness :
  heap (Sample.world resolved) !! 0 = Some (Sample.the_alert resolved)
  ∧ ∃ r w',
      sendAlert Sample.backend_down 0 (Sample.world resolved) = (Normal r, w')
      ∧ heap w' !! 0
        = Some (with_status (if success r then acknowledged else pending)
                            (Sample.the_alert resolved))
      ∧ get_status 0 w' = (Normal (if success r then acknowledged else pending), w')
      ∧ ∀ l, l ≠ 0 → heap w' !! l = heap (Sample.world resolved) !! l.
Proof.
  split; [reflexivity|].
  apply (sendAlert_sets_own_status Sample.backend_down 0 (Sample.the_alert resolved)
           (Sample.world resolved)).
  reflexivity.
Defined.

Lemma backend_accepts_iff supabase a :
  backend_accepts supabase a = true
  ↔ ∃ alertId,
      alerts_insert supabase (toDatabase a) = Normal (mkInsertReply (Some alertId) None)
      ∧ functions_invoke supabase "notify-emergency" alertId = Normal tt.
Proof.
  unfold backend_accepts. split.
  - destruct (alerts_insert supabase (toDatabase a)) as [[[alertId|] [err|]]|e];
      try discriminate.
    destruct (functions_invoke supabase "notify-emergency" alertId) as [[]|e] eqn:Hinv;
      [|discriminate].
    intros _. by exists alertId.
  - intros (alertId & -> & ->). done.
Qed.

(** X14. The authority channel succeeds exactly when the insert of the
    alert's row answers with a row and no error and the call of the
    "notify-emergency" function, made with the id of that row, does not
    reject. Its message is then the authority label followed by
    " has been notified", and "Failed to notify authorities" otherwise. *)
Theorem AuthorityAlert_succeeds_iff supabase this a label w :
  heap w !! this = Some a →
  subclass a = AuthorityAlert label →
  ∃ r w',
    sendAlert supabase this w = (Normal r, w')
    ∧ (success r = true
       ↔ ∃ alertId,
           alerts_insert supabase (toDatabase a)
           = Normal (mkInsertReply (Some alertId) None)
           ∧ functions_invoke supabase "notify-emergency" alertId = Normal tt)
    ∧ message r = if success r then label +:+ " has been notified"
                  else "Failed to notify authorities".
Proof.
  intros H Hsub. eexists _, _. split; [by apply sendAlert_run|].
  rewrite <- backend_accepts_iff. unfold outcome. rewrite Hsub.
  by destruct (backend_accepts supabase a).
Qed.

Lemma AuthorityAlert_succeeds_iff_witness :
  heap (Sample.world pending) !! 0 = Some (Sample.the_alert pending)
  ∧ subclass (Sample.the_alert pending) = AuthorityAlert "911 Medical"
  ∧ ∃ r w',
      sendAlert Sample.backend_up 0 (Sample.world pending) = (Normal r, w')
      ∧ (success r = true
         ↔ ∃ alertId,
             alerts_insert Sample.backend_up (toDatabase (Sample.the_alert pending))
             = Normal (mkInsertReply (Some alertId) None)
             ∧ functions_invoke Sample.backend_up "notify-emergency" alertId = Normal tt)
      ∧ message r = if success r then "911 Medical" +:+ " has been notified"
                    else "Failed to notify authorities".
Proof.
  split; [reflexivity|]. split; [reflexivity|].
  apply (AuthorityAlert_succeeds_iff Sample.backend_up 0 (Sample.the_alert pending)
           "911 Medical" (Sample.world pending)); reflexivity.
Defined.

(** * Further properties of notifyAll *)

Section DispatchFacts.

Context (rt : Runtime) (supabase : Supabase).

Lemma channel_success a sub tag acc :
  forallb entry_success (channel rt supabase a sub tag acc).1
  = forallb entry_success acc.1
    && success (outcome supabase (built_from rt a sub acc.2)).
Proof.
  unfold channel, push. cbn [fst]. rewrite forallb_app. simpl.
  by rewrite andb_true_r.
Qed.

Lemma backend_accepts_row a b :
  toDatabase a = toDatabase b → backend_accepts supabase a = backend_accepts supabase b.
Proof. intros H. unfold backend_accepts. by rewrite H. Qed.

(** Of the four channels only the authority channel can fail. *)
Lemma channels_success a contacts w :
  forallb entry_success (channels rt supabase a contacts w).1
  = backend_accepts supabase (with_status pending a).
Proof.
  unfold channels. rewrite !channel_success.
  set (s0 := (([] : list ResultEntry), w)).
  set (s1 := if bool_decide (0 < length (phones_of contacts)) then _ else s0).
  set (s2 := if bool_decide (0 < length (emails_of contacts)) then _ else s1).
  assert (H1 : forallb entry_success s1.1 = true).
  { subst s1. case_bool_decide; [|done]. by rewrite channel_success. }
  assert (H2 : forallb entry_success s2.1 = true).
  { subst s2. case_bool_decide; [|done]. rewrite channel_success, H1. done. }
  rewrite H2. cbn [andb]. unfold outcome at 2. cbn [built_from subclass success].
  rewrite andb_true_r. unfold outcome. cbn [built_from subclass].
  rewrite (backend_accepts_row _ (with_status pending a)) by done.
  by destruct (backend_accepts supabase (with_status pending a)).
Qed.

Lemma dispatched_start a w : dispatched a w ([], w).
Proof.
  unfold dispatched. cbn [fst snd length]. rewrite !Nat.add_0_r.
  split; [done|]. split; [done|]. split; [done|].
  intros l obj Hnone Hsome. congruence.
Qed.

Lemma dispatched_channel a w sub tag acc :
  dispatched a w acc → dispatched a w (channel rt supabase a sub tag acc).
Proof.
  intros (Hframe & Hsize & Hids & Hnew). unfold dispatched.
  split; [|split; [|split]].
  - intros l Hl. rewrite channel_frame; [by apply Hframe|].
    rewrite Hframe; done.
  - unfold channel, push. cbn [fst snd heap].
    rewrite map_size_insert_None by apply fresh_reference_unused.
    rewrite length_app. simpl. lia.
  - unfold channel, push. cbn [fst snd uuids_drawn].
    rewrite length_app. simpl. lia.
  - intros l obj Hnone. unfold channel. cbn [snd heap].
    rewrite lookup_insert. case_decide as Hl.
    + intros [= <-]. done.
    + by apply Hnew.
Qed.

Lemma dispatched_channels a contacts w :
  dispatched a w (channels rt supabase a contacts w).
Proof.
  unfold channels. do 2 apply dispatched_channel.
  case_bool_decide; [apply dispatched_channel|];
    (case_bool_decide; [apply dispatched_channel|]); apply dispatched_start.
Qed.

Lemma length_phones_of contacts :
  length (phones_of contacts) = length (filter (λ c, phone c ≠ "") contacts).
Proof.
  unfold phones_of. induction contacts as [|c cs IH]; [done|]. cbn [map List.filter].
  destruct (Boolean_string (phone c)) eqn:Hp.
  - rewrite filter_cons_True by by apply Boolean_string_spec.
    simpl. by rewrite IH.
  - rewrite filter_cons_False; [done|].
    rewrite <- Boolean_string_spec. congruence.
Qed.

End DispatchFacts.

(** X15. [notifyAll] reports overall success exactly when the backend
    takes the authority alert: the insert of a row with the user, type,
    message, location and address of the alert passed in and with status
    [pending], whatever the status of that alert is, answers with a row and
    no error, and the "notify-emergency" call with that row's id does not
    reject. The contacts play no part: the SMS, Email and Push entries
    always succeed. *)
Theorem notifyAll_success_iff_backend rt supabase alert a contacts w :
  heap w !! alert = Some a →
  ∃ res w',
    notifyAll rt supabase alert contacts w = (Normal res, w')
    ∧ (all_success res = true
       ↔ ∃ alertId,
           alerts_insert supabase
             (mkAlertRow (_userId a) (_type a) (_message a) pending
                         (lat <$> _location a) (lng <$> _location a)
                         (_locationAddress a))
           = Normal (mkInsertReply (Some alertId) None)
           ∧ functions_invoke supabase "notify-emergency" alertId = Normal tt)
    ∧ ∀ e, e ∈ results res → entry_type e ≠ "Authority" → entry_success e = true.
Proof.
  intros H. eexists _, _. split; [by apply notifyAll_run|]. cbn [all_success results].
  split.
  - rewrite channels_success. apply backend_accepts_iff.
  - intros e He Htype.
    unfold channels, channel at 1 2, push in He. cbn [fst] in He.
    rewrite <- app_assoc in He. apply elem_of_app in He as [He|He].
    + do 2 case_bool_decide; unfold channel, push in He; cbn [fst] in He;
        repeat (apply elem_of_app in He as [He|He]);
        repeat (apply elem_of_cons in He as [->|He]);
        try (by apply elem_of_nil in He); done.
    + apply elem_of_cons in He as [->|He]; [done|].
      apply elem_of_cons in He as [->|He]; [done|]. by apply elem_of_nil in He.
Qed.

Lemma notifyAll_success_iff_backend_witness :
  heap (Sample.world resolved) !! 0 = Some (Sample.the_alert resolved)
  ∧ ∃ res w',
      notifyAll Sample.runtime Sample.backend_up 0 [Sample.contact_with_phone]
                (Sample.world resolved) = (Normal res, w')
      ∧ (all_success res = true
         ↔ ∃ alertId,
             alerts_insert Sample.backend_up
               (mkAlertRow (_userId (Sample.the_alert resolved))
                           (_type (Sample.the_alert resolved))
                           (_message (Sample.the_alert resolved)) pending
                           (lat <$> _location (Sample.the_alert resolved))
                           (lng <$> _location (Sample.the_alert resolved))
                           (_locationAddress (Sample.the_alert resolved)))
             = Normal (mkInsertReply (Some alertId) None)
             ∧ functions_invoke Sample.backend_up "notify-emergency" alertId = Normal tt)
      ∧ ∀ e, e ∈ results res → entry_type e ≠ "Authority" → entry_success e = true.
Proof.
  split; [reflexivity|].
  apply (notifyAll_success_iff_backend Sample.runtime Sample.backend_up 0
           (Sample.the_alert resolved) [Sample.contact_with_phone]
           (Sample.world resolved)).
  reflexivity.
Defined.

(** X16. [notifyAll] changes no object that existed before the call. It
    builds one new alert object per entry of [results] and draws one UUID
    for each; every new object carries the user, type, message, location
    and address of the alert passed in. *)
Theorem notifyAll_allocates rt supabase alert a contacts w :
  heap w !! alert = Some a →
  ∃ res w',
    notifyAll rt supabase alert contacts w = (Normal res, w')
    ∧ (∀ l, is_Some (heap w !! l) → heap w' !! l = heap w !! l)
    ∧ size (heap w') = size (heap w) + length (results res)
    ∧ uuids_drawn w' = uuids_drawn w + length (results res)
    ∧ ∀ l obj, heap w !! l = None → heap w' !! l = Some obj →
               _userId obj = _userId a ∧ _type obj = _type a
               ∧ _message obj = _message a ∧ _location obj = _location a
               ∧ _locationAddress obj = _locationAddress a.
Proof.
  intros H. eexists _, _. split; [by apply notifyAll_run|]. cbn [results].
  apply dispatched_channels.
Qed.

Lemma notifyAll_allocates_witness :
  heap (Sample.world pending) !! 0 = Some (Sample.the_alert pending)
  ∧ ∃ res w',
      notifyAll Sample.runtime Sample.backend_down 0 [Sample.contact_with_phone]
                (Sample.world pending) = (Normal res, w')
      ∧ (∀ l, is_Some (heap (Sample.world pending) !! l) →
              heap w' !! l = heap (Sample.world pending) !! l)
      ∧ size (heap w') = size (heap (Sample.world pending)) + length (results res)
      ∧ uuids_drawn w' = uuids_drawn (Sample.world pending) + length (results res)
      ∧ ∀ l obj, heap (Sample.world pending) !! l = None → heap w' !! l = Some obj →
                 _userId obj = _userId (Sample.the_alert pending)
                 ∧ _type obj = _type (Sample.the_alert pending)
                 ∧ _message obj = _message (Sample.the_alert pending)
                 ∧ _location obj = _location (Sample.the_alert pending)
                 ∧ _locationAddress obj = _locationAddress (Sample.the_alert pending).
Proof.
  split; [reflexivity|].
  apply (notifyAll_allocates Sample.runtime Sample.backend_down 0
           (Sample.the_alert pending) [Sample.contact_with_phone]
           (Sample.world pending)).
  reflexivity.
Defined.

(** X17. When some contact has a non-empty phone, the first entry of
    [results] is the SMS entry, a success whose message gives the number
    of contacts with a non-empty phone; contacts sharing a phone number
    are counted once each. *)
Theorem notifyAll_sms_counts_phones rt supabase alert a contacts w :
  heap w !! alert = Some a →
  (∃ c, c ∈ contacts ∧ phone c ≠ "") →
  ∃ res w',
    notifyAll rt supabase alert contacts w = (Normal res, w')
    ∧ head (results res)
      = Some (mkResultEntry "SMS" true
                ("SMS alerts sent to "
                 +:+ pretty (length (filter (λ c, phone c ≠ "") contacts))
                 +:+ " contacts")).
Proof.
  intros H Hphone. eexists _, _. split; [by apply notifyAll_run|]. cbn [results].
  rewrite <- phones_of_nonempty in Hphone.
  unfold channels. rewrite (bool_decide_eq_true_2 _ Hphone).
  rewrite <- length_phones_of.
  unfold channel at 1 2, push. cbn [fst]. rewrite <- app_assoc.
  case_bool_decide; unfold channel, push; cbn [fst]; done.
Qed.

Lemma notifyAll_sms_counts_phones_witness :
  heap (Sample.world pending) !! 0 = Some (Sample.the_alert pending)
  ∧ (∃ c, c ∈ [Sample.contact_with_phone; Sample.contact_with_phone] ∧ phone c ≠ "")
  ∧ ∃ res w',
      notifyAll Sample.runtime Sample.backend_up 0
                [Sample.contact_with_phone; Sample.contact_with_phone]
                (Sample.world pending) = (Normal res, w')
      ∧ head (results res)
        = Some (mkResultEntry "SMS" true
                  ("SMS alerts sent to "
                   +:+ pretty (length (filter (λ c, phone c ≠ "")
                                 [Sample.contact_with_phone; Sample.contact_with_phone]))
                   +:+ " contacts")).
Proof.
  split; [reflexivity|].
  assert (Hphone : ∃ c, c ∈ [Sample.contact_with_phone; Sample.contact_with_phone]
                        ∧ phone c ≠ "").
  { exists Sample.contact_with_phone. split; [left|discriminate]. }
  split; [exact Hphone|].
  apply (notifyAll_sms_counts_phones Sample.runtime Sample.backend_up 0
           (Sample.the_alert pending)
           [Sample.contact_with_phone; Sample.contact_with_phone]
           (Sample.world pending)); [reflexivity|exact Hphone].
Defined.

(** * The emergency page *)

Lemma in_world_run {A B} (m : AlertM A) (k : A → PageM B) p a w' :
  m (page_world p) = (Normal a, w') →
  (in_world m ≫= k) p = k a (mkPage w' (page_storage p) (page_ui p)).
Proof. intros H. apply bind_normal. unfold in_world. by rewrite H. Qed.

Lemma in_storage_run {A B} (m : StorageM A) (k : A → PageM B) p a ls' :
  m (page_storage p) = (Normal a, ls') →
  (in_storage m ≫= k) p = k a (mkPage (page_world p) ls' (page_ui p)).
Proof. intros H. apply bind_normal. unfold in_storage. by rewrite H. Qed.

Lemma ui_run {B} e (k : unit → PageM B) p :
  (ui e ≫= k) p = k tt (mkPage (page_world p) (page_storage p) (page_ui p ++ [e])%list).
Proof. by apply bind_normal. Qed.

Section PageFacts.

Context (rt : Runtime) (supabase : Supabase) (tables : Tables)
        (safeParse : AlertInput → option string).

Lemma getEmergencyContacts_run {B} userId (k : list Contact → PageM B) p reply :
  contacts_select tables userId = Normal reply →
  contacts_error reply = None →
  (getEmergencyContacts tables userId ≫= k) p = k (default [] (contacts_data reply)) p.
Proof.
  intros Hreply Herr. apply bind_normal.
  unfold getEmergencyContacts. eff_unfold. by rewrite Hreply, Herr.
Qed.

Lemma await_run {A B} (c : Completion A) (k : A → PageM B) p a :
  c = Normal a → (Eff.await c ≫= k) p = k a p.
Proof. intros ->. by apply bind_normal. Qed.

(** The [try] block when the contacts query answers without an error:
    the channels run, the log is saved, and only then the events row is
    written. *)
Lemma send_and_log_run userId form location p reply :
  contacts_select tables userId = Normal reply →
  contacts_error reply = None →
  let contacts := default [] (contacts_data reply) in
  let w := page_world p in
  let a := page_alert rt userId form location w in
  let sent := channels rt supabase a contacts (page_world_built rt userId form location w) in
  let saved := state_after (saveLog (page_log rt userId form location w sent.1))
                           (page_storage p) in
  send_and_log rt supabase tables userId form location p
  = match events_insert tables (page_event rt form location w (length contacts)) with
    | Normal _ =>
        (Normal tt,
         mkPage sent.2 saved
                (page_ui p ++ [ToastAlertSent (length contacts);
                               NavigateAfter "/alerts" 2000])%list)
    | Throw e => (Throw e, mkPage sent.2 saved (page_ui p))
    end.
Proof.
  intros Hreply Herr contacts w a sent saved. unfold send_and_log.
  rewrite (in_world_run _ _ p (fresh (dom (heap w)))
             (page_world_built rt userId form location w)) by done.
  cbv beta.
  assert (Halert : heap (page_world_built rt userId form location w)
                     !! fresh (dom (heap w)) = Some a) by apply lookup_insert_eq.
  rewrite (getEmergencyContacts_run userId _ _ reply Hreply Herr).
  cbv beta. fold contacts.
  match goal with
  | |- (in_world ?m ≫= ?k) ?q = _ =>
      rewrite (in_world_run m k q _ _ (notifyAll_run rt supabase _ a contacts _ Halert))
  end.
  cbn [page_world page_storage page_ui results]. fold sent.
  assert (Hstill : heap sent.2 !! fresh (dom (heap w)) = Some a).
  { subst sent. rewrite channels_frame; [done|]. by rewrite Halert. }
  assert (Hderef : deref (fresh (dom (heap w))) sent.2 = (Normal a, sent.2))
    by (unfold deref; by rewrite Hstill).
  match goal with
  | |- (in_world ?m ≫= ?k) ?q = _ => rewrite (in_world_run m k q _ _ Hderef)
  end.
  cbn [page_world page_storage page_ui].
  match goal with
  | |- (in_storage (saveLog ?log) ≫= ?k) ?q = _ =>
      rewrite (in_storage_run (saveLog log) k q _ _ (saveLog_normal log _))
  end.
  cbn [page_world page_storage page_ui].
  match goal with
  | |- (in_world ?m ≫= ?k) ?q = _ => rewrite (in_world_run m k q _ _ Hderef)
  end.
  cbn [page_world page_storage page_ui].
  change (mkEventRow _ _ _ _ _ _)
    with (page_event rt form location w (length contacts)).
  destruct (events_insert tables (page_event rt form location w (length contacts)))
    as [[]|e] eqn:Hevent.
  - rewrite (await_run (Normal tt) _ _ tt eq_refl).
    rewrite ui_run. unfold ui, Eff.modify. cbn [page_world page_storage page_ui].
    by rewrite <- app_assoc.
  - by apply bind_throw.
Qed.

(** The [try] block when the contacts query fails: the alert object is
    built and nothing else happens. *)
Lemma send_and_log_no_contacts userId form location p e :
  (contacts_select tables userId = Throw e
   ∨ ∃ reply msg, contacts_select tables userId = Normal reply
                  ∧ contacts_error reply = Some msg ∧ e = PostgrestError msg) →
  send_and_log rt supabase tables userId form location p
  = (Throw e, mkPage (page_world_built rt userId form location (page_world p))
                     (page_storage p) (page_ui p)).
Proof.
  intros Hfail. unfold send_and_log.
  rewrite (in_world_run _ _ p (fresh (dom (heap (page_world p))))
             (page_world_built rt userId form location (page_world p))) by done.
  cbv beta. apply bind_throw. unfold getEmergencyContacts. eff_unfold.
  destruct Hfail as [->|(reply & msg & -> & -> & ->)]; done.
Qed.

End PageFacts.

Section TriggerFacts.

Context (rt : Runtime) (supabase : Supabase) (tables : Tables)
        (safeParse : AlertInput → option string).

(** Past the guards and the validation, [triggerEmergency] is its [try]
    block between the two loading events, with the error toast when the
    block throws. *)
Lemma triggerEmergency_run form userId location p :
  form_user form = Some userId →
  form_location form = Some location →
  parsed safeParse form location = None →
  let started := mkPage (page_world p) (page_storage p)
                        (page_ui p ++ [SetLoading true; StopPanicSound])%list in
  let r := send_and_log rt supabase tables userId form location started in
  triggerEmergency rt supabase tables safeParse form p
  = (Normal tt,
     mkPage (page_world r.2) (page_storage r.2)
            ((page_ui r.2 ++ match r.1 with
                             | Normal _ => []
                             | Throw e => [ToastError e]
                             end) ++ reset_events)%list).
Proof.
  intros Huser Hloc Hparse started r. unfold triggerEmergency.
  rewrite Huser, Hloc. unfold parsed in Hparse. rewrite Hparse.
  rewrite ui_run, ui_run. cbn [page_world page_storage page_ui].
  rewrite <- app_assoc. cbn [app]. fold started.
  unfold try_finally, Eff.try_catch. fold r.
  destruct r as [[[]|e] q]; cbn [fst snd].
  - unfold ui, Eff.modify. eff_unfold. cbn [page_world page_storage page_ui].
    rewrite app_nil_r, <- !app_assoc. done.
  - unfold ui, Eff.modify. eff_unfold. cbn [page_world page_storage page_ui].
    rewrite <- !app_assoc. done.
Qed.

End TriggerFacts.

(** X18. Whenever the contacts query answers without an error and the
    storage accepts the write, [triggerEmergency] saves a log at the head
    of the store that carries the id, message and time of the alert it
    built, the type and location of the form, exactly the entries
    [notifyAll] returned for that alert and the contacts fetched, and the
    status "pending", even when every entry is a success: the alert whose
    status is recorded is the one handed to [notifyAll], which [notifyAll]
    never sends. The log is saved whether or not the events row can be
    written afterwards. *)
Theorem triggerEmergency_logs_pending rt supabase tables safeParse form userId
    location reply p :
  form_user form = Some userId →
  form_location form = Some location →
  parsed safeParse form location = None →
  contacts_select tables userId = Normal reply →
  contacts_error reply = None →
  (∀ logs, fits (page_storage p) logs = true) →
  ∃ p' log entries,
    triggerEmergency rt supabase tables safeParse form p = (Normal tt, p')
    ∧ head (stored (page_storage p')) = Some log
    ∧ log_id log = randomUUID rt (uuids_drawn (page_world p))
    ∧ log_userId log = userId
    ∧ log_message log = message_or_default (form_message form) (form_alertType form)
    ∧ log_status log = "pending"
    ∧ notificationResults log = Some entries
    ∧ last entries
      = Some (mkResultEntry "Push" true "Push notifications sent to 2 devices")
    ∧ map entry_type entries
      = ((if bool_decide (0 < length (phones_of (default [] (contacts_data reply))))
          then ["SMS"] else [])
         ++ (if bool_decide (0 < length (emails_of (default [] (contacts_data reply))))
             then ["Email"] else [])
         ++ ["Authority"; "Push"])%list
    ∧ log_type log = AlertType_to_string (form_alertType form)
    ∧ log_location log = Some location
    ∧ log_locationAddress log = form_locationAddress form
    ∧ log_timestamp log = now rt (uuids_drawn (page_world p))
    ∧ ∃ alert built res,
        new_AuthorityAlert rt userId (form_alertType form)
          (message_or_default (form_message form) (form_alertType form))
          (Some location) (form_locationAddress form) (page_world p)
        = (Normal alert, built)
        ∧ notifyAll rt supabase alert (default [] (contacts_data reply)) built
          = (Normal res, page_world p')
        ∧ entries = results res.
Proof.
  intros Huser Hloc Hparse Hreply Herr Hfits.
  eexists _, _, _. split; [by apply triggerEmergency_run|].
  rewrite (send_and_log_run rt supabase tables userId form location _ reply Hreply Herr).
  cbn [page_world page_storage page_ui].
  set (sent := channels _ _ _ _ _).
  assert (Hsaved : stored (state_after
                     (saveLog (page_log rt userId form location (page_world p) sent.1))
                     (page_storage p))
                   = take MAX_LOGS (page_log rt userId form location (page_world p) sent.1
                                    :: stored (page_storage p))).
  { by rewrite stored_saveLog, Hfits. }
  assert (Hsent : notifyAll rt supabase (fresh (dom (heap (page_world p))))
                    (default [] (contacts_data reply))
                    (page_world_built rt userId form location (page_world p))
                  = (Normal (mkNotifyResult (forallb entry_success sent.1) sent.1),
                     sent.2)).
  { apply notifyAll_run. apply lookup_insert_eq. }
  destruct (events_insert tables _) as [[]|e]; cbn [fst snd page_storage page_world];
    rewrite Hsaved;
    (split; [reflexivity|]);
    do 5 (split; [reflexivity|]);
    (split; [apply channels_last|]);
    (split; [apply channels_tags|]);
    do 4 (split; [reflexivity|]);
    eexists _, _, _; (split; [reflexivity|]); (split; [exact Hsent|reflexivity]).
Qed.

Lemma triggerEmergency_logs_pending_witness :
  form_user SamplePage.form = Some "user-1"
  ∧ form_location SamplePage.form = Some SamplePage.here
  ∧ parsed SamplePage.accept_all SamplePage.form SamplePage.here = None
  ∧ contacts_select SamplePage.tables_up "user-1"
    = Normal (mkContactsReply (Some [Sample.contact_with_phone]) None)
  ∧ contacts_error (mkContactsReply (Some [Sample.contact_with_phone]) None) = None
  ∧ (∀ logs, fits (page_storage SamplePage.page) logs = true)
  ∧ ∃ p' log entries,
      triggerEmergency Sample.runtime Sample.backend_down SamplePage.tables_up
                       SamplePage.accept_all SamplePage.form SamplePage.page
      = (Normal tt, p')
      ∧ head (stored (page_storage p')) = Some log
      ∧ log_id log = randomUUID Sample.runtime (uuids_drawn (page_world SamplePage.page))
      ∧ log_userId log = "user-1"
      ∧ log_message log
        = message_or_default (form_message SamplePage.form)
                             (form_alertType SamplePage.form)
      ∧ log_status log = "pending"
      ∧ notificationResults log = Some entries
      ∧ last entries
        = Some (mkResultEntry "Push" true "Push notifications sent to 2 devices")
      ∧ map entry_type entries
        = ((if bool_decide
                 (0 < length (phones_of
                                (default [] (contacts_data
                                   (mkContactsReply (Some [Sample.contact_with_phone])
                                                    None)))))
            then ["SMS"] else [])
           ++ (if bool_decide
                    (0 < length (emails_of
                                   (default [] (contacts_data
                                      (mkContactsReply (Some [Sample.contact_with_phone])
                                                       None)))))
               then ["Email"] else [])
           ++ ["Authority"; "Push"])%list
      ∧ log_type log = AlertType_to_string (form_alertType SamplePage.form)
      ∧ log_location log = Some SamplePage.here
      ∧ log_locationAddress log = form_locationAddress SamplePage.form
      ∧ log_timestamp log
        = now Sample.runtime (uuids_drawn (page_world SamplePage.page))
      ∧ ∃ alert built res,
          new_AuthorityAlert Sample.runtime "user-1" (form_alertType SamplePage.form)
            (message_or_default (form_message SamplePage.form)
                                (form_alertType SamplePage.form))
            (Some SamplePage.here) (form_locationAddress SamplePage.form)
            (page_world SamplePage.page)
          = (Normal alert, built)
          ∧ notifyAll Sample.runtime Sample.backend_down alert
              (default [] (contacts_data
                             (mkContactsReply (Some [Sample.contact_with_phone]) None)))
              built
            = (Normal res, page_world p')
          ∧ entries = results res.
Proof.
  do 6 (split; [reflexivity|]).
  apply (triggerEmergency_logs_pending Sample.runtime Sample.backend_down
           SamplePage.tables_up SamplePage.accept_all SamplePage.form "user-1"
           SamplePage.here (mkContactsReply (Some [Sample.contact_with_phone]) None)
           SamplePage.page); reflexivity.
Defined.

(** X19. The toast "Emergency alert sent!" and the navigation to
    "/alerts" do not depend on the channel outcomes: when the contacts
    query and the events insert go through, [triggerEmergency] shows them
    for every behaviour of the alerts backend, a failed authority channel
    included; the toast gives the number of contacts fetched. *)
Theorem triggerEmergency_toast_ignores_outcomes rt supabase tables safeParse form
    userId location reply p :
  form_user form = Some userId →
  form_location form = Some location →
  parsed safeParse form location = None →
  contacts_select tables userId = Normal reply →
  contacts_error reply = None →
  (∀ row, events_insert tables row = Normal tt) →
  ∃ p',
    triggerEmergency rt supabase tables safeParse form p = (Normal tt, p')
    ∧ page_ui p'
      = (page_ui p
         ++ [SetLoading true; StopPanicSound;
             ToastAlertSent (length (default [] (contacts_data reply)));
             NavigateAfter "/alerts" 2000;
             SetLoading false; SetIsEmergencyActive false; SetCountdown None])%list.
Proof.
  intros Huser Hloc Hparse Hreply Herr Hevents.
  eexists. split; [by apply triggerEmergency_run|].
  rewrite (send_and_log_run rt supabase tables userId form location _ reply Hreply Herr).
  rewrite Hevents. cbn [fst snd page_ui]. unfold reset_events.
  rewrite app_nil_r, <- !app_assoc. done.
Qed.

Lemma triggerEmergency_toast_ignores_outcomes_witness :
  form_user SamplePage.form = Some "user-1"
  ∧ form_location SamplePage.form = Some SamplePage.here
  ∧ parsed SamplePage.accept_all SamplePage.form SamplePage.here = None
  ∧ contacts_select SamplePage.tables_up "user-1"
    = Normal (mkContactsReply (Some [Sample.contact_with_phone]) None)
  ∧ contacts_error (mkContactsReply (Some [Sample.contact_with_phone]) None) = None
  ∧ (∀ row, events_insert SamplePage.tables_up row = Normal tt)
  ∧ ∃ p',
      triggerEmergency Sample.runtime Sample.backend_down SamplePage.tables_up
                       SamplePage.accept_all SamplePage.form SamplePage.page
      = (Normal tt, p')
      ∧ page_ui p'
        = (page_ui SamplePage.page
           ++ [SetLoading true; StopPanicSound;
               ToastAlertSent
                 (length (default [] (contacts_data
                            (mkContactsReply (Some [Sample.contact_with_phone]) None))));
               NavigateAfter "/alerts" 2000;
               SetLoading false; SetIsEmergencyActive false; SetCountdown None])%list.
Proof.
  do 6 (split; [reflexivity|]).
  apply (triggerEmergency_toast_ignores_outcomes Sample.runtime Sample.backend_down
           SamplePage.tables_up SamplePage.accept_all SamplePage.form "user-1"
           SamplePage.here (mkContactsReply (Some [Sample.contact_with_phone]) None)
           SamplePage.page); reflexivity.
Defined.

(** X20. When the contacts query fails, by an error in its reply or by
    rejecting, [triggerEmergency] uses no channel and saves no log: the
    console and the storage are as before, the one thing shown between
    the loading events is the error toast, and only the alert object has
    been built. *)
Theorem triggerEmergency_without_contacts rt supabase tables safeParse form userId
    location e p :
  form_user form = Some userId →
  form_location form = Some location →
  parsed safeParse form location = None →
  (contacts_select tables userId = Throw e
   ∨ ∃ reply msg, contacts_select tables userId = Normal reply
                  ∧ contacts_error reply = Some msg ∧ e = PostgrestError msg) →
  ∃ p',
    triggerEmergency rt supabase tables safeParse form p = (Normal tt, p')
    ∧ page_storage p' = page_storage p
    ∧ console (page_world p') = console (page_world p)
    ∧ size (heap (page_world p')) = S (size (heap (page_world p)))
    ∧ page_ui p'
      = (page_ui p
         ++ [SetLoading true; StopPanicSound; ToastError e;
             SetLoading false; SetIsEmergencyActive false; SetCountdown None])%list.
Proof.
  intros Huser Hloc Hparse Hfail.
  eexists. split; [by apply triggerEmergency_run|].
  rewrite (send_and_log_no_contacts rt supabase tables userId form location _ e Hfail).
  cbn [fst snd page_world page_storage page_ui]. split; [done|]. split; [done|].
  split.
  - unfold page_world_built. cbn [heap].
    apply map_size_insert_None, fresh_reference_unused.
  - unfold reset_events. rewrite <- !app_assoc. done.
Qed.

Lemma triggerEmergency_without_contacts_witness :
  form_user SamplePage.form = Some "user-1"
  ∧ form_location SamplePage.form = Some SamplePage.here
  ∧ parsed SamplePage.accept_all SamplePage.form SamplePage.here = None
  ∧ (contacts_select SamplePage.tables_down "user-1"
     = Throw (PostgrestError "permission denied")
     ∨ ∃ reply msg, contacts_select SamplePage.tables_down "user-1" = Normal reply
                    ∧ contacts_error reply = Some msg
                    ∧ PostgrestError "permission denied" = PostgrestError msg)
  ∧ ∃ p',
      triggerEmergency Sample.runtime Sample.backend_up SamplePage.tables_down
                       SamplePage.accept_all SamplePage.form SamplePage.page
      = (Normal tt, p')
      ∧ page_storage p' = page_storage SamplePage.page
      ∧ console (page_world p') = console (page_world SamplePage.page)
      ∧ size (heap (page_world p')) = S (size (heap (page_world SamplePage.page)))
      ∧ page_ui p'
        = (page_ui SamplePage.page
           ++ [SetLoading true; StopPanicSound;
               ToastError (PostgrestError "permission denied");
               SetLoading false; SetIsEmergencyActive false; SetCountdown None])%list.
Proof.
  do 3 (split; [reflexivity|]).
  assert (Hfail : contacts_select SamplePage.tables_down "user-1"
                  = Throw (PostgrestError "permission denied")
                  ∨ ∃ reply msg,
                      contacts_select SamplePage.tables_down "user-1" = Normal reply
                      ∧ contacts_error reply = Some msg
                      ∧ PostgrestError "permission denied" = PostgrestError msg).
  { right. eexists _, _. repeat split; reflexivity. }
  split; [exact Hfail|].
  apply (triggerEmergency_without_contacts Sample.runtime Sample.backend_up
           SamplePage.tables_down SamplePage.accept_all SamplePage.form "user-1"
           SamplePage.here (PostgrestError "permission denied") SamplePage.page);
    [reflexivity..|exact Hfail].
Defined.

(** X21. [triggerEmergency] never throws, on any form, page and
    backend. Without a user or a location it does nothing at all; on a
    validation issue it shows that issue and nothing else; otherwise what
    it shows starts with the loading and alarm events and ends with the
    three events of the [finally] block, so loading is always reset. It
    adds at most one log to the store. *)
Theorem triggerEmergency_always_settles rt supabase tables safeParse form p :
  ∃ p',
    triggerEmergency rt supabase tables safeParse form p = (Normal tt, p')
    ∧ (form_user form = None ∨ form_location form = None → p' = p)
    ∧ (∀ userId location issue,
         form_user form = Some userId → form_location form = Some location →
         parsed safeParse form location = Some issue →
         p' = mkPage (page_world p) (page_storage p)
                     (page_ui p ++ [ToastValidationError issue])%list)
    ∧ (∀ userId location,
         form_user form = Some userId → form_location form = Some location →
         parsed safeParse form location = None →
         ∃ shown, page_ui p'
                  = (page_ui p ++ [SetLoading true; StopPanicSound] ++ shown
                     ++ [SetLoading false; SetIsEmergencyActive false;
                         SetCountdown None])%list)
    ∧ (length (stored (page_storage p')) ≤ S (length (stored (page_storage p))))%nat.
Proof.
  destruct (form_user form) as [userId|] eqn:Huser;
    [destruct (form_location form) as [location|] eqn:Hloc|].
  - destruct (parsed safeParse form location) as [issue|] eqn:Hparse.
    + exists (mkPage (page_world p) (page_storage p)
                     (page_ui p ++ [ToastValidationError issue])%list).
      split.
      { unfold triggerEmergency. rewrite Huser, Hloc.
        unfold parsed in Hparse. by rewrite Hparse. }
      split; [intros [?|?]; discriminate|].
      split; [intros ? ? ? [= <-] [= <-]; congruence|].
      split; [intros ? ? [= <-] [= <-]; congruence|]. cbn [page_storage]. lia.
    + eexists. split; [by apply triggerEmergency_run|].
      split; [intros [?|?]; discriminate|].
      split; [intros ? ? ? [= <-] [= <-]; congruence|].
      set (started := mkPage _ _ (page_ui p ++ [SetLoading true; StopPanicSound])%list).
      assert (Hcases :
        ∃ shown, page_ui (send_and_log rt supabase tables userId form location started).2
                 = (page_ui started ++ shown)%list
                 ∧ (length (stored (page_storage
                      (send_and_log rt supabase tables userId form location started).2))
                    ≤ S (length (stored (page_storage p))))%nat).
      { destruct (contacts_select tables userId) as [reply|e] eqn:Hsel;
          [destruct (contacts_error reply) as [msg|] eqn:Herr|].
        - rewrite (send_and_log_no_contacts rt supabase tables userId form location
                     started (PostgrestError msg)) by (right; eauto).
          exists []. cbn [snd page_ui page_storage]. rewrite app_nil_r.
          split; [done|]. unfold started. cbn [page_storage]. lia.
        - rewrite (send_and_log_run rt supabase tables userId form location
                     started reply Hsel Herr).
          assert (Hlen : ∀ log,
                    (length (stored (state_after (saveLog log) (page_storage p)))
                     ≤ S (length (stored (page_storage p))))%nat).
          { intros log. rewrite stored_saveLog. destruct (fits _ _); [|lia].
            rewrite length_take. cbn [length]. lia. }
          destruct (events_insert tables _) as [[]|e]; cbn [snd page_ui page_storage].
          + eexists. split; [reflexivity|]. unfold started. cbn [page_storage]. apply Hlen.
          + exists []. rewrite app_nil_r. split; [done|].
            unfold started. cbn [page_storage]. apply Hlen.
        - rewrite (send_and_log_no_contacts rt supabase tables userId form location
                     started e) by (by left).
          exists []. cbn [snd page_ui page_storage]. rewrite app_nil_r.
          split; [done|]. unfold started. cbn [page_storage]. lia. }
      destruct Hcases as (shown & Hshown & Hlen).
      split; [|exact Hlen].
      intros ? ? [= <-] [= <-] _. cbn [page_ui]. rewrite Hshown.
      exists (shown ++ match (send_and_log rt supabase tables userId form location
                                           started).1 with
                       | Normal _ => []
                       | Throw e => [ToastError e]
                       end)%list.
      unfold started. cbn [page_ui]. unfold reset_events.
      rewrite <- !app_assoc. reflexivity.
  - exists p. split; [unfold triggerEmergency; by rewrite Huser, Hloc|].
    split; [done|]. split; [intros ? ? ? _ [=]|]. split; [intros ? ? _ [=]|]. lia.
  - exists p. split; [unfold triggerEmergency; by rewrite Huser|].
    split; [done|]. split; [intros ? ? ? [=]|]. split; [intros ? ? [=]|]. lia.
Qed.

(** X22. When the events insert rejects after the channels ran, the page
    shows the error toast and does not navigate, although the push channel
    was the last to write to the console and the log is saved at the head
    of the store. *)
Theorem triggerEmergency_late_failure rt supabase tables safeParse form userId
    location reply e p :
  form_user form = Some userId →
  form_location form = Some location →
  parsed safeParse form location = None →
  contacts_select tables userId = Normal reply →
  contacts_error reply = None →
  (∀ row, events_insert tables row = Throw e) →
  (∀ logs, fits (page_storage p) logs = true) →
  ∃ p' log,
    triggerEmergency rt supabase tables safeParse form p = (Normal tt, p')
    ∧ page_ui p'
      = (page_ui p
         ++ [SetLoading true; StopPanicSound; ToastError e;
             SetLoading false; SetIsEmergencyActive false; SetCountdown None])%list
    ∧ last (console (page_world p')) = Some (LogSendingPush 2)
    ∧ head (stored (page_storage p')) = Some log
    ∧ log_id log = randomUUID rt (uuids_drawn (page_world p)).
Proof.
  intros Huser Hloc Hparse Hreply Herr Hevents Hfits.
  eexists _, _. split; [by apply triggerEmergency_run|].
  rewrite (send_and_log_run rt supabase tables userId form location _ reply Hreply Herr).
  rewrite Hevents. cbn [fst snd page_world page_storage page_ui].
  split; [unfold reset_events; by rewrite <- !app_assoc|].
  split.
  - rewrite channels_console, !app_assoc.
    match goal with
    | |- last (?l ++ [?x; ?y]) = _ =>
        change (l ++ [x; y])%list with (l ++ ([x] ++ [y]))%list
    end.
    rewrite app_assoc. apply last_snoc.
  - rewrite stored_saveLog, Hfits. split; reflexivity.
Qed.

Lemma triggerEmergency_late_failure_witness :
  form_user SamplePage.form = Some "user-1"
  ∧ form_location SamplePage.form = Some SamplePage.here
  ∧ parsed SamplePage.accept_all SamplePage.form SamplePage.here = None
  ∧ contacts_select SamplePage.tables_late "user-1"
    = Normal (mkContactsReply (Some [Sample.contact_with_phone]) None)
  ∧ contacts_error (mkContactsReply (Some [Sample.contact_with_phone]) None) = None
  ∧ (∀ row, events_insert SamplePage.tables_late row = Throw (NetworkError "fetch failed"))
  ∧ (∀ logs, fits (page_storage SamplePage.page) logs = true)
  ∧ ∃ p' log,
      triggerEmergency Sample.runtime Sample.backend_up SamplePage.tables_late
                       SamplePage.accept_all SamplePage.form SamplePage.page
      = (Normal tt, p')
      ∧ page_ui p'
        = (page_ui SamplePage.page
           ++ [SetLoading true; StopPanicSound; ToastError (NetworkError "fetch failed");
               SetLoading false; SetIsEmergencyActive false; SetCountdown None])%list
      ∧ last (console (page_world p')) = Some (LogSendingPush 2)
      ∧ head (stored (page_storage p')) = Some log
      ∧ log_id log
        = randomUUID Sample.runtime (uuids_drawn (page_world SamplePage.page)).
Proof.
  do 7 (split; [reflexivity|]).
  apply (triggerEmergency_late_failure Sample.runtime Sample.backend_up SamplePage.tables_late
           SamplePage.accept_all SamplePage.form "user-1" SamplePage.here
           (mkContactsReply (Some [Sample.contact_with_phone]) None)
           (NetworkError "fetch failed") SamplePage.page); reflexivity.
Defined.

(** * The edge function *)

Ltac prefix_grows :=
  match goal with
  | |- ?l `prefix_of` ?l => reflexivity
  | |- _ `prefix_of` _ => eexists; rewrite <- ?app_assoc; reflexivity
  end.

(** Closing one branch of the handler's [try] block. *)
Ltac settle :=
  eexists _, _; split; [reflexivity|]; split; [prefix_grows|];
  let resp := fresh "resp" in
  let Hr := fresh "Hr" in
  intros resp Hr;
  first [ discriminate Hr
        | injection Hr as <-; split; [reflexivity|set_solver] ].

(** X23. The verifying version of the function answers every request:
    it never throws, the status is 200, 401, 403 or 500, every response
    carries the CORS headers, and the requests sent to the backend are
    only added to. A preflight request (OPTIONS) is answered 200 with no
    body and without any request to the backend. *)
Theorem serve_verified_always_answers be req sent :
  ∃ resp sent',
    serve_verified be req sent = (Normal resp, sent')
    ∧ cors_headers resp = true
    ∧ status resp ∈ [200; 401; 403; 500]
    ∧ sent `prefix_of` sent'
    ∧ (req_method req = "OPTIONS" →
       resp = mkResponse 200 NullBody true false ∧ sent' = sent).
Proof.
  unfold serve_verified.
  destruct (String.eqb (req_method req) "OPTIONS") eqn:Hm.
  { eexists _, _. split; [reflexivity|]. split; [done|].
    split; [set_solver|]. split; [done|]. done. }
  assert (Hnot : req_method req ≠ "OPTIONS") by (by apply String.eqb_neq).
  unfold Eff.try_catch.
  match goal with
  | |- ∃ resp sent', (let (_, _) := ?body sent in _) = _ ∧ _ =>
      assert (Hbody : ∃ r sent', body sent = (r, sent') ∧ sent `prefix_of` sent'
                ∧ ∀ resp, r = Normal resp →
                          cors_headers resp = true ∧ status resp ∈ [200; 401; 403; 500])
  end.
  { destruct (req_authorization req) as [authHeader|]; [|settle].
    destruct (Boolean_string authHeader); [|settle].
    eff_unfold. unfold request. eff_unfold.
    destruct (req_alertId req) as [alertId|e]; [|settle].
    destruct (createClient be (SUPABASE_URL be) (SUPABASE_ANON_KEY be)) as [[]|e];
      [|settle].
    destruct (auth_getUser be authHeader) as [[[userId|] [authError|]]|e];
      cbn [auth_error auth_user]; try settle.
    destruct (createClient be (SUPABASE_URL be) (SUPABASE_SERVICE_ROLE_KEY be))
      as [[]|e]; [|settle].
    destruct (alerts_single be alertId (Some userId)) as [[[alert|] [alertError|]]|e];
      cbn [alert_error alert_data]; try settle.
    destruct (edge_contacts_select be (rec_user_id alert)) as [[data [contactsError|]]|e];
      cbn [contacts_error contacts_data]; try settle.
    destruct (edge_events_insert be _) as [[]|e]; settle. }
  destruct Hbody as (r & sent' & Hrun & Hprefix & Hresp). rewrite Hrun.
  destruct r as [resp|e].
  - exists resp, sent'. split; [done|]. destruct (Hresp resp eq_refl) as [Hc Hs].
    split; [done|]. split; [done|]. split; [done|]. intros ?. done.
  - eexists _, _. split; [reflexivity|]. split; [done|].
    split; [cbn [status json_response]; rewrite !elem_of_cons; tauto|].
    split; [done|]. intros ?. done.
Qed.

(** X24. A request that is not a preflight and carries no authorization
    header, or an empty one, is answered 401 "Unauthorized" by the
    verifying version before anything else happens: no request is sent to
    the backend and the body is not read, so the answer is the same
    whether or not the body parses. *)
Theorem serve_verified_unauthorized be req sent :
  req_method req ≠ "OPTIONS" →
  req_authorization req = None ∨ req_authorization req = Some "" →
  serve_verified be req sent
  = (Normal (mkResponse 401 (ErrorBody "Unauthorized") true true), sent).
Proof.
  intros Hm Hauth. unfold serve_verified.
  apply String.eqb_neq in Hm. rewrite Hm.
  by destruct Hauth as [-> | ->].
Qed.

Lemma serve_verified_unauthorized_witness :
  req_method (mkEdgeRequest "POST" None (Throw SyntaxError)) ≠ "OPTIONS"
  ∧ (req_authorization (mkEdgeRequest "POST" None (Throw SyntaxError)) = None
     ∨ req_authorization (mkEdgeRequest "POST" None (Throw SyntaxError)) = Some "")
  ∧ serve_verified (SampleEdge.backend None)
                   (mkEdgeRequest "POST" None (Throw SyntaxError)) []
    = (Normal (mkResponse 401 (ErrorBody "Unauthorized") true true), []).
Proof.
  assert (Hm : req_method (mkEdgeRequest "POST" None (Throw SyntaxError)) ≠ "OPTIONS")
    by discriminate.
  split; [exact Hm|]. split; [left; reflexivity|].
  apply (serve_verified_unauthorized (SampleEdge.backend None)
           (mkEdgeRequest "POST" None (Throw SyntaxError)) [] Hm).
  left. reflexivity.
Defined.

(** X25. The verifying version answers a request 200 only after it has
    looked the caller up by the authorization header and found the alert
    under the id asked for and the id of that caller: a success means the
    four requests sent were, in order, the user lookup, the alert lookup
    restricted to the caller, the contacts of the alert's user and the
    insert of the event row, and the count in the body is the number of
    contacts read (0 when there is no data). *)
Theorem serve_verified_success_is_owned be req sent resp sent' :
  req_method req ≠ "OPTIONS" →
  serve_verified be req sent = (Normal resp, sent') →
  status resp = 200 →
  ∃ authHeader userId alertId alert data,
    req_authorization req = Some authHeader
    ∧ authHeader ≠ ""
    ∧ req_alertId req = Normal alertId
    ∧ auth_getUser be authHeader = Normal (mkAuthReply (Some userId) None)
    ∧ alerts_single be alertId (Some userId) = Normal (mkAlertReply (Some alert) None)
    ∧ edge_contacts_select be (rec_user_id alert) = Normal (mkContactsReply data None)
    ∧ sent' = (sent ++ [GetUser authHeader;
                        SelectAlert alertId (Some userId);
                        SelectContacts (rec_user_id alert);
                        InsertEvent (notification_event alertId alert data)])%list
    ∧ resp = mkResponse 200
               (SuccessBody "Emergency notifications sent" (contacts_count data))
               true true.
Proof.
  intros Hm. apply String.eqb_neq in Hm. unfold serve_verified. rewrite Hm.
  unfold Eff.try_catch.
  destruct (req_authorization req) as [authHeader|] eqn:Hauth;
    [|intros [= <- <-]; discriminate].
  destruct (Boolean_string authHeader) eqn:Hheader;
    [|intros [= <- <-]; discriminate].
  apply Boolean_string_spec in Hheader.
  eff_unfold. unfold request. eff_unfold.
  destruct (req_alertId req) as [alertId|e] eqn:Hid; [|intros [= <- <-]; discriminate].
  destruct (createClient be (SUPABASE_URL be) (SUPABASE_ANON_KEY be)) as [[]|e];
    [|intros [= <- <-]; discriminate].
  destruct (auth_getUser be authHeader) as [[[userId|] [authError|]]|e] eqn:Huser;
    cbn [auth_error auth_user]; try (intros [= <- <-]; discriminate).
  destruct (createClient be (SUPABASE_URL be) (SUPABASE_SERVICE_ROLE_KEY be))
    as [[]|e]; [|intros [= <- <-]; discriminate].
  destruct (alerts_single be alertId (Some userId))
    as [[[alert|] [alertError|]]|e] eqn:Halert;
    cbn [alert_error alert_data]; try (intros [= <- <-]; discriminate).
  destruct (edge_contacts_select be (rec_user_id alert))
    as [[data [contactsError|]]|e] eqn:Hcontacts;
    cbn [contacts_error contacts_data]; try (intros [= <- <-]; discriminate).
  destruct (edge_events_insert be _) as [[]|e]; [|intros [= <- <-]; discriminate].
  intros [= <- <-] _. exists authHeader, userId, alertId, alert, data.
  do 6 (split; [done|]). split; [by rewrite <- !app_assoc|done].
Qed.

Lemma serve_verified_success_is_owned_witness :
  req_method (SampleEdge.post (Some "Bearer t1") "alert-1") ≠ "OPTIONS"
  ∧ ∃ resp sent',
      serve_verified (SampleEdge.backend None)
                     (SampleEdge.post (Some "Bearer t1") "alert-1") []
      = (Normal resp, sent')
      ∧ status resp = 200
      ∧ ∃ authHeader userId alertId alert data,
          req_authorization (SampleEdge.post (Some "Bearer t1") "alert-1")
          = Some authHeader
          ∧ authHeader ≠ ""
          ∧ req_alertId (SampleEdge.post (Some "Bearer t1") "alert-1") = Normal alertId
          ∧ auth_getUser (SampleEdge.backend None) authHeader
            = Normal (mkAuthReply (Some userId) None)
          ∧ alerts_single (SampleEdge.backend None) alertId (Some userId)
            = Normal (mkAlertReply (Some alert) None)
          ∧ edge_contacts_select (SampleEdge.backend None) (rec_user_id alert)
            = Normal (mkContactsReply data None)
          ∧ sent' = ([] ++ [GetUser authHeader;
                            SelectAlert alertId (Some userId);
                            SelectContacts (rec_user_id alert);
                            InsertEvent (notification_event alertId alert data)])%list
          ∧ resp = mkResponse 200
                     (SuccessBody "Emergency notifications sent" (contacts_count data))
                     true true.
Proof.
  assert (Hm : req_method (SampleEdge.post (Some "Bearer t1") "alert-1") ≠ "OPTIONS")
    by discriminate.
  split; [exact Hm|]. eexists _, _. split; [reflexivity|]. split; [reflexivity|].
  apply (serve_verified_success_is_owned (SampleEdge.backend None)
           (SampleEdge.post (Some "Bearer t1") "alert-1") [] _ _ Hm);
    reflexivity.
Defined.

(** X26. The version under supabase/functions/notify-emergency never
    looks at the caller: for any authorization header, present or not, a
    request naming an alert the backend finds (with its profile) is
    answered 200, and the alert is looked up by its id alone. *)
Theorem serve_open_answers_anyone be method authorization alertId alert profile
    data sent :
  method ≠ "OPTIONS" →
  createClient be (SUPABASE_URL be) (SUPABASE_SERVICE_ROLE_KEY be) = Normal tt →
  alerts_single be alertId None = Normal (mkAlertReply (Some alert) None) →
  rec_profiles alert = Some profile →
  edge_contacts_select be (rec_user_id alert) = Normal (mkContactsReply data None) →
  edge_events_insert be (notification_event alertId alert data) = Normal tt →
  serve_open be (mkEdgeRequest method authorization (Normal alertId)) sent
  = (Normal (mkResponse 200
               (SuccessBody "Emergency notifications sent" (contacts_count data))
               true true),
     (sent ++ [SelectAlert alertId None;
               SelectContacts (rec_user_id alert);
               InsertEvent (notification_event alertId alert data)])%list).
Proof.
  intros Hm Hclient Halert Hprofile Hcontacts Hevent.
  apply String.eqb_neq in Hm. unfold serve_open. cbn [req_method req_alertId].
  rewrite Hm. unfold Eff.try_catch. eff_unfold. unfold request. eff_unfold.
  rewrite Hclient, Halert. cbn [alert_error alert_data].
  rewrite Hcontacts. cbn [contacts_error contacts_data].
  rewrite Hevent, Hprofile. by rewrite <- !app_assoc.
Qed.

Lemma serve_open_answers_anyone_witness :
  "POST" ≠ "OPTIONS"
  ∧ serve_open (SampleEdge.backend (Some (mkProfile "Ada" "+15550100" "Main Street 1")))
               (mkEdgeRequest "POST" None (Normal (Some "alert-1"))) []
    = (Normal (mkResponse 200
                 (SuccessBody "Emergency notifications sent"
                    (contacts_count (Some [Sample.contact_with_phone])))
                 true true),
       ([] ++ [SelectAlert (Some "alert-1") None;
               SelectContacts
                 (rec_user_id (SampleEdge.alert_row
                                 (Some (mkProfile "Ada" "+15550100" "Main Street 1"))));
               InsertEvent
                 (notification_event (Some "alert-1")
                    (SampleEdge.alert_row
                       (Some (mkProfile "Ada" "+15550100" "Main Street 1")))
                    (Some [Sample.contact_with_phone]))])%list).
Proof.
  assert (Hm : "POST" ≠ "OPTIONS") by discriminate.
  split; [exact Hm|].
  apply (serve_open_answers_anyone
           (SampleEdge.backend (Some (mkProfile "Ada" "+15550100" "Main Street 1")))
           "POST" None (Some "alert-1")
           (SampleEdge.alert_row (Some (mkProfile "Ada" "+15550100" "Main Street 1")))
           (mkProfile "Ada" "+15550100" "Main Street 1")
           (Some [Sample.contact_with_phone]) [] Hm); reflexivity.
Defined.

(** X27. In that version an alert whose user has no profile row is
    answered 500, and only after the event row saying the notifications
    were sent has been inserted: the failure comes from reading the
    profile's name for the console. *)
Theorem serve_open_missing_profile be method authorization alertId alert data sent :
  method ≠ "OPTIONS" →
  createClient be (SUPABASE_URL be) (SUPABASE_SERVICE_ROLE_KEY be) = Normal tt →
  alerts_single be alertId None = Normal (mkAlertReply (Some alert) None) →
  rec_profiles alert = None →
  edge_contacts_select be (rec_user_id alert) = Normal (mkContactsReply data None) →
  edge_events_insert be (notification_event alertId alert data) = Normal tt →
  ∃ resp sent',
    serve_open be (mkEdgeRequest method authorization (Normal alertId)) sent
    = (Normal resp, sent')
    ∧ status resp = 500
    ∧ last sent' = Some (InsertEvent (notification_event alertId alert data))
    ∧ edge_event_type (notification_event alertId alert data) = "notifications_sent".
Proof.
  intros Hm Hclient Halert Hprofile Hcontacts Hevent.
  apply String.eqb_neq in Hm. unfold serve_open. cbn [req_method req_alertId].
  rewrite Hm. unfold Eff.try_catch. eff_unfold. unfold request. eff_unfold.
  rewrite Hclient, Halert. cbn [alert_error alert_data].
  rewrite Hcontacts. cbn [contacts_error contacts_data].
  rewrite Hevent, Hprofile. eexists _, _. split; [reflexivity|].
  split; [done|]. split; [apply last_snoc|done].
Qed.

Lemma serve_open_missing_profile_witness :
  "POST" ≠ "OPTIONS"
  ∧ ∃ resp sent',
      serve_open (SampleEdge.backend None)
                 (mkEdgeRequest "POST" None (Normal (Some "alert-1"))) []
      = (Normal resp, sent')
      ∧ status resp = 500
      ∧ last sent'
        = Some (InsertEvent (notification_event (Some "alert-1")
                               (SampleEdge.alert_row None)
                               (Some [Sample.contact_with_phone])))
      ∧ edge_event_type (notification_event (Some "alert-1") (SampleEdge.alert_row None)
                                            (Some [Sample.contact_with_phone]))
        = "notifications_sent".
Proof.
  assert (Hm : "POST" ≠ "OPTIONS") by discriminate.
  split; [exact Hm|].
  apply (serve_open_missing_profile (SampleEdge.backend None) "POST" None
           (Some "alert-1") (SampleEdge.alert_row None)
           (Some [Sample.contact_with_phone]) [] Hm); reflexivity.
Defined.

(** * The location service *)

(** The address [reverseGeocode] answers: the display name when the
    geocoder answered with a non-empty one, the text of the coordinates in
    every other case. *)
Lemma reverseGeocode_run latitude longitude s :
  ∃ address,
    reverseGeocode latitude longitude s = (Normal address, s)
    ∧ ((∃ name, name ≠ ""
                ∧ geocode (browser s) latitude longitude
                  = Normal (GeocodeObject (Some name))
                ∧ address = name)
       ∨ (∀ name, geocode (browser s) latitude longitude
                  = Normal (GeocodeObject (Some name)) → name = "")
         ∧ address = coordinates_text (browser s) latitude longitude).
Proof.
  unfold reverseGeocode. eff_unfold.
  destruct (geocode (browser s) latitude longitude) as [[|[name|]]|e] eqn:Hgeo;
    cbn [Boolean_optional];
    try (eexists; split; [reflexivity|]; right; split; [intros ? [=]|done]).
  destruct (Boolean_string name) eqn:Hname.
  - eexists. split; [reflexivity|]. left. exists name.
    split; [by apply Boolean_string_spec|done].
  - eexists. split; [reflexivity|]. right. split; [|done].
    intros ? [= <-]. by destruct name.
Qed.

(** X28. Starting and stopping the watch pair up: on a service that is
    not watching, [startWatchingLocation] followed by
    [stopWatchingLocation] leaves the service and the browser's active
    watches exactly as they were; stopping a service that is not watching
    does nothing, so stopping twice is stopping once; and without
    geolocation in the browser starting does nothing. *)
Theorem watch_start_stop s :
  (_watchId s = None →
   (startWatchingLocation;; stopWatchingLocation) s = (Normal tt, s))
  ∧ (_watchId s = None → stopWatchingLocation s = (Normal tt, s))
  ∧ (stopWatchingLocation;; stopWatchingLocation) s = stopWatchingLocation s
  ∧ (has_geolocation (browser s) = false → startWatchingLocation s = (Normal tt, s)).
Proof.
  destruct s as [current watchId [supported watches now geo fixed]].
  split; [|split; [|split]].
  - cbn [_watchId]. intros ->. unfold startWatchingLocation, stopWatchingLocation,
      watchPosition, clearWatch.
    eff_unfold. cbn. destruct supported; cbn; [|done].
    do 3 f_equal. pose proof (is_fresh watches) as Hfresh.
    apply set_eq. intros x. rewrite elem_of_difference, elem_of_union, !elem_of_singleton.
    split; [tauto|]. intros Hx. split; [by right|]. intros ->. done.
  - cbn [_watchId]. by intros ->.
  - unfold stopWatchingLocation, clearWatch. eff_unfold. cbn.
    by destruct watchId.
  - cbn. intros ->. done.
Qed.

Lemma watch_start_stop_witness :
  _watchId SampleLocation.service = None
  ∧ (startWatchingLocation;; stopWatchingLocation) SampleLocation.service
    = (Normal tt, SampleLocation.service).
Proof.
  split; [reflexivity|].
  destruct (watch_start_stop SampleLocation.service) as [Hpair _].
  apply Hpair. reflexivity.
Defined.

(** X29. The service remembers one watch id only: when
    [startWatchingLocation] is called twice with geolocation present, the
    second id replaces the first, [stopWatchingLocation] clears the second
    watch alone, and the first watch stays active with no id left in the
    service to clear it: further calls of [stopWatchingLocation] change
    nothing. *)
Theorem watch_started_twice_leaks s :
  has_geolocation (browser s) = true →
  _watchId s = None →
  ∃ s',
    (startWatchingLocation;; (startWatchingLocation;; stopWatchingLocation)) s
    = (Normal tt, s')
    ∧ active_watches (browser s')
      = ({[fresh (active_watches (browser s))]} ∪ active_watches (browser s))
    ∧ (fresh (active_watches (browser s)) ∉ active_watches (browser s))
    ∧ _watchId s' = None
    ∧ stopWatchingLocation s' = (Normal tt, s').
Proof.
  destruct s as [current watchId [supported watches now geo fixed]].
  cbn [browser has_geolocation _watchId active_watches]. intros -> ->.
  eexists. split; [reflexivity|]. cbn.
  split; [|split; [apply is_fresh|by split]].
  pose proof (is_fresh ({[fresh watches]} ∪ watches)) as Hsecond.
  apply set_eq. intros x. rewrite elem_of_difference, !elem_of_union, !elem_of_singleton.
  split; [tauto|]. intros Hx. split; [by right|]. intros ->.
  apply Hsecond. rewrite elem_of_union, elem_of_singleton. tauto.
Qed.

Lemma watch_started_twice_leaks_witness :
  has_geolocation (browser SampleLocation.service) = true
  ∧ _watchId SampleLocation.service = None
  ∧ ∃ s',
      (startWatchingLocation;; (startWatchingLocation;; stopWatchingLocation))
        SampleLocation.service = (Normal tt, s')
      ∧ active_watches (browser s')
        = ({[fresh (active_watches (browser SampleLocation.service))]}
           ∪ active_watches (browser SampleLocation.service))
      ∧ (fresh (active_watches (browser SampleLocation.service))
         ∉ active_watches (browser SampleLocation.service))
      ∧ _watchId s' = None
      ∧ stopWatchingLocation s' = (Normal tt, s').
Proof.
  split; [reflexivity|]. split; [reflexivity|].
  apply (watch_started_twice_leaks SampleLocation.service); reflexivity.
Defined.

(** X30. What [captureLocation] answers is fixed by the browser and the
    report, and it never throws. Without geolocation in the browser the
    promise rejects with "Geolocation is not supported by your browser",
    whatever the report. With geolocation, a failed position rejects with
    "Location error: " followed by the browser's message. In both cases
    the service is exactly as before. With geolocation and a position
    found, the promise resolves with the reported coordinates, the time of
    the clock, and as address the geocoder's display name when the
    geocoder answered with a non-empty one and the text of the coordinates
    in every other case (a rejected request, a body that is [null], no
    display name or an empty one); that value becomes the current
    location, and the watch and the browser are untouched. *)
Theorem captureLocation_settles report s :
  (has_geolocation (browser s) = false →
   captureLocation report s
   = (Normal (Rejected "Geolocation is not supported by your browser"), s))
  ∧ (∀ reason,
       has_geolocation (browser s) = true → report = PositionFailed reason →
       captureLocation report s = (Normal (Rejected ("Location error: " +:+ reason)), s))
  ∧ (∀ latitude longitude,
       has_geolocation (browser s) = true → report = PositionFound latitude longitude →
       ∃ address,
         captureLocation report s
         = (Normal (Resolved (mkLocationData latitude longitude address
                                             (clock (browser s)))),
            mkLocation (Some (mkLocationData latitude longitude address
                                             (clock (browser s))))
                       (_watchId s) (browser s))
         ∧ ((∃ name, name ≠ ""
                     ∧ geocode (browser s) latitude longitude
                       = Normal (GeocodeObject (Some name))
                     ∧ address = name)
            ∨ (∀ name, geocode (browser s) latitude longitude
                       = Normal (GeocodeObject (Some name)) → name = "")
              ∧ address = coordinates_text (browser s) latitude longitude)).
Proof.
  unfold captureLocation, locate. eff_unfold.
  split; [|split].
  - by intros ->.
  - by intros reason -> ->.
  - intros latitude longitude -> ->.
    destruct (reverseGeocode_run latitude longitude s) as (address & Hrun & Haddr).
    rewrite Hrun. exists address. split; [reflexivity|exact Haddr].
Qed.

Lemma captureLocation_settles_witness :
  has_geolocation (browser SampleLocation.service) = true
  ∧ ∃ address,
      captureLocation (PositionFound (mkNumber 1) (mkNumber 2)) SampleLocation.service
      = (Normal (Resolved (mkLocationData (mkNumber 1) (mkNumber 2) address
                             (clock (browser SampleLocation.service)))),
         mkLocation (Some (mkLocationData (mkNumber 1) (mkNumber 2) address
                             (clock (browser SampleLocation.service))))
                    (_watchId SampleLocation.service) (browser SampleLocation.service))
      ∧ ((∃ name, name ≠ ""
                  ∧ geocode (browser SampleLocation.service) (mkNumber 1) (mkNumber 2)
                    = Normal (GeocodeObject (Some name))
                  ∧ address = name)
         ∨ (∀ name, geocode (browser SampleLocation.service) (mkNumber 1) (mkNumber 2)
                    = Normal (GeocodeObject (Some name)) → name = "")
           ∧ address = coordinates_text (browser SampleLocation.service)
                                        (mkNumber 1) (mkNumber 2)).
Proof.
  split; [reflexivity|].
  destruct (captureLocation_settles (PositionFound (mkNumber 1) (mkNumber 2))
              SampleLocation.service) as (_ & _ & Hfound).
  apply Hfound; reflexivity.
Defined.
